(** * The storage-plugin registry of dlite (src/dlite-storage-plugins.c)

    A shallow embedding of the process-wide registry of storage plugins:
    the lazily created [storage_plugin_info], the cached digest
    [storage_plugin_path_hash] of the search paths, name resolution with
    its hash-gated rescan, load-all, unload-all and the mutation of the
    search path.

    The two file-scope statics of the C file and the part of the
    environment the functions read are the fields of one record [World];
    every C function is a function from a world to a result and the next
    world.  Calls that leave the translation unit are recorded in the
    world's [trace], in call order, so that statements such as "no rescan"
    or "the hook is registered once" are statements about that list. *)

From Stdlib Require Import ZArith Lia.
From stdpp Require Import gmap strings list fin_maps vector.

Local Open Scope Z_scope.

(** ** Data model *)

(** The capability descriptor a loaded library hands out
    (DLiteStoragePlugin): the driver name it reports, and the library file
    it came from. *)
Record DLiteStoragePlugin := {
  plugin_name : string;
  plugin_lib : string;
}.

(** PluginInfo of utils/plugin.h, as far as this file uses it: the ordered
    search path ([info->paths]) and the mapping from driver name to loaded
    descriptor. *)
Record PluginInfo := {
  paths : list string;
  apis : gmap string DLiteStoragePlugin;
}.

(** [unsigned char hash[32]]. *)
Abbreviation hash32 := (vec Byte.byte 32).

#[global] Instance byte_eq_dec : EqDecision Byte.byte := Byte.byte_eq_dec.

(** A shared-library file of a directory: its file name and what probing
    it yields.  [None] stands for a file that cannot be opened, lacks the
    entry symbol or fails in the probe. *)
Record SharedLib := {
  lib_file : string;
  lib_api : option DLiteStoragePlugin;
}.

(** Calls that leave the translation unit. *)
Inductive Event :=
| EvInfoCreate (ok : bool)      (* plugin_info_create *)
| EvAtexit                      (* atexit(storage_plugin_info_free) *)
| EvSetPlatform                 (* fu_paths_set_platform *)
| EvAddDllPath                  (* dlite_add_dll_path *)
| EvGetApi (name : string)      (* plugin_get_api *)
| EvPathsHash                   (* pathshash *)
| EvLoadAll                     (* plugin_load_all *)
| EvUnload (name : string)      (* plugin_unload *)
| EvErrx (eval : Z) (msg : string).  (* errx *)

#[global] Instance Event_eq_dec : EqDecision Event.
Proof. solve_decision. Defined.

Record World := {
  (* static PluginInfo *storage_plugin_info = NULL; *)
  storage_plugin_info : option PluginInfo;
  (* static unsigned char storage_plugin_path_hash[32]; *)
  storage_plugin_path_hash : hash32;
  (* outcomes of the coming allocations of plugin_info_create, in order
     ([true]: succeeds); once the list is used up every allocation succeeds *)
  mem : list bool;
  (* dlite_use_build_root() *)
  use_build_root : bool;
  (* dlite_root_get() *)
  dlite_root : string;
  (* the directories listed in the DLITE_STORAGE_PLUGIN_DIRS environment
     variable *)
  env_paths : list string;
  (* the shared libraries of each directory, in directory order *)
  fs : gmap string (list SharedLib);
  (* instrumentation: the external calls made so far, oldest first *)
  trace : list Event;
}.

(** Static storage is zero-initialised. *)
Definition zero_hash : hash32 := vreplicate 32 Byte.x00.

Definition set_info (i : option PluginInfo) (w : World) : World :=
  {| storage_plugin_info := i;
     storage_plugin_path_hash := storage_plugin_path_hash w;
     mem := mem w; use_build_root := use_build_root w;
     dlite_root := dlite_root w; env_paths := env_paths w;
     fs := fs w; trace := trace w |}.

Definition set_hash (h : hash32) (w : World) : World :=
  {| storage_plugin_info := storage_plugin_info w;
     storage_plugin_path_hash := h;
     mem := mem w; use_build_root := use_build_root w;
     dlite_root := dlite_root w; env_paths := env_paths w;
     fs := fs w; trace := trace w |}.

Definition set_mem (m : list bool) (w : World) : World :=
  {| storage_plugin_info := storage_plugin_info w;
     storage_plugin_path_hash := storage_plugin_path_hash w;
     mem := m; use_build_root := use_build_root w;
     dlite_root := dlite_root w; env_paths := env_paths w;
     fs := fs w; trace := trace w |}.

Definition log (e : Event) (w : World) : World :=
  {| storage_plugin_info := storage_plugin_info w;
     storage_plugin_path_hash := storage_plugin_path_hash w;
     mem := mem w; use_build_root := use_build_root w;
     dlite_root := dlite_root w; env_paths := env_paths w;
     fs := fs w; trace := trace w ++ [e] |}.

(** Number of rescans (calls of plugin_load_all) in a trace. *)
Definition rescans (t : list Event) : nat :=
  length (filter (λ e, e = EvLoadAll) t).

(** Number of registrations of the teardown hook in a trace. *)
Definition atexits (t : list Event) : nat :=
  length (filter (λ e, e = EvAtexit) t).

(** ** The plugin substrate (utils/plugin.c, utils/fileutils.c) *)

(** Modelled from the spec: plugin_path_extend of utils/plugin.c, which
    lies outside this translation unit.  It appends the directories of a
    built-in path list to the search path, in order. *)
Definition plugin_path_extend (info : PluginInfo) (dirs : list string)
  : PluginInfo :=
  {| paths := paths info ++ dirs; apis := apis info |}.

(** Modelled from the spec: plugin_path_extend_prefix of utils/plugin.c.
    As [plugin_path_extend], with every directory placed under [prefix]. *)
Definition plugin_path_extend_prefix (info : PluginInfo) (prefix : string)
  (dirs : list string) : PluginInfo :=
  plugin_path_extend info (map (λ d, prefix +:+ "/" +:+ d) dirs).

(** Modelled from the spec: plugin_get_api of utils/plugin.c, the lookup of
    a driver name in the mapping of registered descriptors. *)
Definition plugin_get_api (info : PluginInfo) (name : string)
  : option DLiteStoragePlugin :=
  apis info !! name.

(** Modelled from the spec: the probe of one shared-library file.  A file
    that yields a descriptor registers it under the name the descriptor
    reports, replacing an earlier entry of that name; any other file is
    skipped. *)
Definition load_file (m : gmap string DLiteStoragePlugin) (f : SharedLib)
  : gmap string DLiteStoragePlugin :=
  match lib_api f with
  | Some api => <[plugin_name api := api]> m
  | None => m
  end.

Definition load_dir (files : gmap string (list SharedLib))
  (m : gmap string DLiteStoragePlugin) (dir : string)
  : gmap string DLiteStoragePlugin :=
  foldl load_file m (default [] (files !! dir)).

(** Modelled from the spec: plugin_load_all of utils/plugin.c, the full
    rescan.  Every directory of the search path is visited in order and
    every shared library in it is probed. *)
Definition plugin_load_all (files : gmap string (list SharedLib))
  (info : PluginInfo) : PluginInfo :=
  {| paths := paths info;
     apis := foldl (load_dir files) (apis info) (paths info) |}.

(** Modelled from the spec: plugin_names of utils/plugin.c, the names
    currently registered.  ([None] is the NULL the C function returns when
    it cannot allocate the array; the model allocates.) *)
Definition plugin_names (info : PluginInfo) : option (list string) :=
  Some (map fst (map_to_list (apis info))).

(** Modelled from the spec: plugin_unload of utils/plugin.c.  Removes the
    entry; non-zero when there is none.  The value 1 stands for that
    non-zero result: only whether the result is 0 is used below. *)
Definition plugin_unload (info : PluginInfo) (name : string)
  : Z * PluginInfo :=
  match apis info !! name with
  | Some _ => (0, {| paths := paths info; apis := delete name (apis info) |})
  | None => (1, info)
  end.

(** Modelled from the spec: plugin_path_get, the NULL-terminated array of
    the search path, as a list. *)
Definition plugin_path_get (info : PluginInfo) : list string := paths info.

(** Modelled from the spec: the insertion position of plugin_path_insert.
    A negative index [n] counts from the end and denotes position
    [len + n + 1]; an index out of range is clipped to the nearest valid
    bound. *)
Definition clip_index (len : nat) (n : Z) : Z :=
  let i := if n <? 0 then Z.of_nat len + n + 1 else n in
  Z.max 0 (Z.min i (Z.of_nat len)).

(** Modelled from the spec: plugin_path_insert of utils/plugin.c.  Returns
    the index of the inserted element. *)
Definition plugin_path_insert (info : PluginInfo) (path : string) (n : Z)
  : Z * PluginInfo :=
  let i := clip_index (length (paths info)) n in
  (i, {| paths := take (Z.to_nat i) (paths info) ++ path ::
                  drop (Z.to_nat i) (paths info);
         apis := apis info |}).

(** Modelled from the spec: plugin_path_append, insertion at the end. *)
Definition plugin_path_append (info : PluginInfo) (path : string)
  : Z * PluginInfo :=
  (Z.of_nat (length (paths info)),
   {| paths := paths info ++ [path]; apis := apis info |}).

(** Modelled from the spec: plugin_path_appendn, as append with at most
    the first [n] bytes of [path]. *)
Definition plugin_path_appendn (info : PluginInfo) (path : string) (n : nat)
  : Z * PluginInfo :=
  plugin_path_append info (String.substring 0 n path).

(** memcmp over two 32-byte buffers: the sign of the first difference,
    bytes compared as unsigned values. *)
Fixpoint memcmp_list (a b : list Byte.byte) : Z :=
  match a, b with
  | x :: a', y :: b' =>
      if decide (x = y) then memcmp_list a' b'
      else if (Byte.to_N x <? Byte.to_N y)%N then -1 else 1
  | _, _ => 0
  end.

Definition memcmp (a b : hash32) : Z :=
  memcmp_list (vec_to_list a) (vec_to_list b).

(** Modelled from the spec: plugin_info_create of utils/plugin.c.  Fails
    (NULL) only when the allocation fails; otherwise the new registry has
    no entry and its search path is seeded from the environment variable
    it is given. *)
Definition plugin_info_create (w : World) : option PluginInfo * World :=
  let ok := match mem w with b :: _ => b | [] => true end in
  let w1 := log (EvInfoCreate ok) (set_mem (tail (mem w)) w) in
  if ok then (Some {| paths := env_paths w; apis := ∅ |}, w1)
  else (None, w1).

(** The result of a call of [dlite_storage_plugin_get]. *)
Inductive Outcome :=
| Returned (api : option DLiteStoragePlugin)  (* [None] is NULL *)
| Exited (eval : Z) (msg : string)            (* the process ended in errx *)
| Undefined.                                  (* a NULL pointer was read *)

Definition nl : string := String (Ascii.ascii_of_nat 10) EmptyString.
Definition dquote : string := String (Ascii.ascii_of_nat 34) EmptyString.

(** The three parts of the text of lines 110-119. *)
Definition message_header (name : string) : string :=
  "cannot find storage plugin for driver " +:+ dquote +:+ name +:+ dquote
  +:+ " in search path:" +:+ nl.

Definition message_line (p : string) : string := "    " +:+ p +:+ nl.

Definition message_hint (build_root : bool) : string :=
  "Is the " +:+ (if build_root then EmptyString else "DLITE_ROOT or ") +:+
  "DLITE_STORAGE_PLUGIN_DIRS enveronment variable(s) set?".

Definition message_lines (ps : list string) : string :=
  foldr (λ p rest, message_line p +:+ rest) EmptyString ps.

(** [mentions s msg]: the text [s] occurs in [msg]. *)
Fixpoint mentions (s msg : string) : bool :=
  String.prefix s msg ||
  match msg with
  | EmptyString => false
  | String _ rest => mentions s rest
  end.

(** A file system without the files that cannot be loaded. *)
Definition only_loadable (files : gmap string (list SharedLib))
  : gmap string (list SharedLib) :=
  filter (λ f, is_Some (lib_api f)) <$> files.

(** What the translation unit takes from its headers: from config-paths.h
    the plugin directories of the build tree and the plugin directories
    relative to the installation root, and from pathshash.h the digest of
    a search path ([None] is a non-zero return). *)
Class Substrate := {
  dlite_STORAGE_PLUGINS : list string;
  DLITE_STORAGE_PLUGIN_DIRS : list string;
  pathshash : list string → option hash32;
}.

Section Registry.

Context {sub : Substrate}.

(** ** The functions of dlite-storage-plugins.c *)

Definition storage_plugin_info_free (w : World) : World :=
  set_info None w.

Definition get_storage_plugin_info (w : World) : option PluginInfo * World :=
  match storage_plugin_info w with
  | Some info => (Some info, w)
  | None =>
    match plugin_info_create w with
    | (Some info, w1) =>
      let w2 := log EvAtexit (set_info (Some info) w1) in
      let w3 := log EvSetPlatform w2 in
      let info' :=
        if use_build_root w3
        then plugin_path_extend info dlite_STORAGE_PLUGINS
        else plugin_path_extend_prefix info (dlite_root w3)
               DLITE_STORAGE_PLUGIN_DIRS in
      let w4 := set_info (Some info') w3 in
      let w5 := log EvAddDllPath w4 in
      (storage_plugin_info w5, w5)
    | (None, w1) => (None, set_info None w1)
    end
  end.

(** The outcome of the next allocation of plugin_info_create. *)
Definition next_alloc (w : World) : bool :=
  match mem w with b :: _ => b | [] => true end.

(** The search path a new registry starts with: the directories of the
    environment variable, then the defaults of the active mode. *)
Definition seeded_paths (w : World) : list string :=
  env_paths w ++
  (if use_build_root w then dlite_STORAGE_PLUGINS
   else map (λ d, dlite_root w +:+ "/" +:+ d) DLITE_STORAGE_PLUGIN_DIRS).

Definition dlite_storage_plugin_paths (w : World)
  : option (list string) * World :=
  match get_storage_plugin_info w with
  | (None, w1) => (None, w1)
  | (Some info, w1) => (Some (plugin_path_get info), w1)
  end.

(** Lines 104-119: the text handed to errx.  asnpprintf appends to the
    buffer; [n] counts the directories listed. *)
Definition not_found_message (build_root : bool) (name : string)
  (ps : list string) : string :=
  let submsg := if build_root then EmptyString else "DLITE_ROOT or " in
  let buf := "cannot find storage plugin for driver " +:+ dquote +:+ name
             +:+ dquote +:+ " in search path:" +:+ nl in
  let '(buf, n) :=
    foldl (λ '(buf, n) p, (buf +:+ "    " +:+ p +:+ nl, n + 1)) (buf, 0) ps in
  if n <=? 1
  then buf +:+ "Is the " +:+ submsg +:+
       "DLITE_STORAGE_PLUGIN_DIRS enveronment variable(s) set?"
  else buf.

(** Modelled from the spec: errx of utils/err.h, which lies outside this
    translation unit.  The spec has the failure it reports end the process
    with status [eval], and [Exited] records that reading together with
    the message.  The statements [free(buf); return NULL;] that follow the
    call in the source are reached only if errx returns, which this
    translation unit does not decide; what is proved below about an
    [Exited] outcome is that errx is called, with which status and with
    which message. *)
Definition errx (eval : Z) (msg : string) (w : World) : Outcome * World :=
  (Exited eval msg, log (EvErrx eval msg) w).

Definition dlite_storage_plugin_get (name : string) (w : World)
  : Outcome * World :=
  match get_storage_plugin_info w with
  | (None, w1) => (Returned None, w1)
  | (Some info, w1) =>
    let w2 := log (EvGetApi name) w1 in
    match plugin_get_api info name with
    | Some api => (Returned (Some api), w2)
    | None =>
      (* if any plugin path has changed, reload all plugins and try again *)
      let '(api, w3) :=
        match storage_plugin_info w2 with
        | None => (None, w2)
        | Some _ =>
          let w3 := log EvPathsHash w2 in
          match pathshash (paths info) with
          | None => (None, w3)
          | Some hash =>
            if decide (memcmp (storage_plugin_path_hash w3) hash ≠ 0) then
              let info' := plugin_load_all (fs w3) info in
              let w4 := log EvLoadAll (set_info (Some info') w3) in
              let w5 := set_hash hash w4 in
              let w6 := log (EvGetApi name) w5 in
              (plugin_get_api info' name, w6)
            else (None, w3)
          end
        end in
      match api with
      | Some api => (Returned (Some api), w3)
      | None =>
        (* cannot find api - create informative error message *)
        match dlite_storage_plugin_paths w3 with
        | (None, w4) => (Undefined, w4)
        | (Some ps, w4) =>
          errx 1 (not_found_message (use_build_root w4) name ps) w4
        end
      end
    end
  end.

Definition dlite_storage_plugin_load_all (w : World) : Z * World :=
  match get_storage_plugin_info w with
  | (None, w1) => (1, w1)
  | (Some info, w1) =>
    (0, log EvLoadAll (set_info (Some (plugin_load_all (fs w1) info)) w1))
  end.

Definition dlite_storage_plugin_unload_all (w : World) : World :=
  match get_storage_plugin_info w with
  | (None, w1) => w1
  | (Some info, w1) =>
    match plugin_names info with
    | None => w1
    | Some names =>
      foldl (λ w p,
               match storage_plugin_info w with
               | Some i =>
                 log (EvUnload p) (set_info (Some (plugin_unload i p).2) w)
               | None => w
               end) w1 names
    end
  end.

Definition dlite_storage_plugin_unload (name : string) (w : World)
  : Z * World :=
  match get_storage_plugin_info w with
  | (None, w1) => (1, w1)
  | (Some info, w1) =>
    let '(r, info') := plugin_unload info name in
    (r, log (EvUnload name) (set_info (Some info') w1))
  end.

Definition dlite_storage_plugin_path_insert (n : Z) (path : string)
  (w : World) : Z * World :=
  match get_storage_plugin_info w with
  | (None, w1) => (1, w1)
  | (Some info, w1) =>
    let '(i, info') := plugin_path_insert info path n in
    (i, set_info (Some info') w1)
  end.

Definition dlite_storage_plugin_path_append (path : string) (w : World)
  : Z * World :=
  match get_storage_plugin_info w with
  | (None, w1) => (1, w1)
  | (Some info, w1) =>
    let '(i, info') := plugin_path_append info path in
    (i, set_info (Some info') w1)
  end.

Definition dlite_storage_plugin_path_appendn (path : string) (n : nat)
  (w : World) : Z * World :=
  match get_storage_plugin_info w with
  | (None, w1) => (1, w1)
  | (Some info, w1) =>
    let '(i, info') := plugin_path_appendn info path n in
    (i, set_info (Some info') w1)
  end.

End Registry.

(** ** A concrete world for the examples *)

Definition hdf5_api : DLiteStoragePlugin :=
  {| plugin_name := "hdf5"; plugin_lib := "/plugins/hdf5.so" |}.

Definition json_api : DLiteStoragePlugin :=
  {| plugin_name := "json"; plugin_lib := "/plugins/dlite-json.so" |}.

Definition demo_fs : gmap string (list SharedLib) :=
  {[ "/plugins" :=
       [ {| lib_file := "broken.so"; lib_api := None |};
         {| lib_file := "hdf5.so"; lib_api := Some hdf5_api |};
         {| lib_file := "dlite-json.so"; lib_api := Some json_api |} ] ]}.

(** A stand-in digest for the examples: every byte is the length of the
    search path plus one (modulo 256). *)
Definition demo_hash (ps : list string) : option hash32 :=
  match Byte.of_N (N.of_nat (S (length ps)) mod 256) with
  | Some b => Some (vreplicate 32 b)
  | None => None
  end.

(** The substrate of the examples. *)
Definition demo : Substrate :=
  {| dlite_STORAGE_PLUGINS := ["/plugins"];
     DLITE_STORAGE_PLUGIN_DIRS := ["share/dlite/storage-plugins"];
     pathshash := demo_hash |}.

Definition fresh_world : World :=
  {| storage_plugin_info := None;
     storage_plugin_path_hash := zero_hash;
     mem := [];
     use_build_root := true;
     dlite_root := "/usr";
     env_paths := [];
     fs := demo_fs;
     trace := [] |}.

(** A new process whose environment variable lists one more directory, so
    that the search path has two entries. *)
Definition two_paths_world : World :=
  {| storage_plugin_info := None;
     storage_plugin_path_hash := zero_hash;
     mem := [];
     use_build_root := true;
     dlite_root := "/usr";
     env_paths := ["/opt/plugins"];
     fs := demo_fs;
     trace := [] |}.

(** A process that cannot allocate the registry. *)
Definition no_memory_world : World :=
  {| storage_plugin_info := None;
     storage_plugin_path_hash := zero_hash;
     mem := [false];
     use_build_root := true;
     dlite_root := "/usr";
     env_paths := [];
     fs := demo_fs;
     trace := [] |}.

Definition demo_get_info : World → option PluginInfo * World :=
  get_storage_plugin_info (sub := demo).

Definition demo_get : string → World → Outcome * World :=
  dlite_storage_plugin_get (sub := demo).

Definition demo_load_all : World → Z * World :=
  dlite_storage_plugin_load_all (sub := demo).

Definition demo_unload_all : World → World :=
  dlite_storage_plugin_unload_all (sub := demo).

Definition demo_path_insert : Z → string → World → Z * World :=
  dlite_storage_plugin_path_insert (sub := demo).

Definition demo_path_append : string → World → Z * World :=
  dlite_storage_plugin_path_append (sub := demo).

Definition demo_path_appendn : string → nat → World → Z * World :=
  dlite_storage_plugin_path_appendn (sub := demo).

(** The world after the first resolution of hdf5 in a new process: the
    registry exists, both plugins of /plugins are registered and the
    cached hash is the digest of the search path. *)
Definition loaded_world : World :=
  Eval vm_compute in (demo_get "hdf5" fresh_world).2.

(** ** The rest of the interface *)

(** A search path without the first occurrence of [path]; [None] when
    [path] does not occur. *)
Fixpoint remove_first (path : string) (ps : list string)
  : option (list string) :=
  match ps with
  | [] => None
  | p :: ps' =>
      if decide (p = path) then Some ps'
      else cons p <$> remove_first path ps'
  end.

(** Modelled from the spec: plugin_path_remove of utils/plugin.c.  Removes
    the first directory equal to [path]; non-zero when there is no such
    path. *)
Definition plugin_path_remove (info : PluginInfo) (path : string)
  : Z * PluginInfo :=
  match remove_first path (paths info) with
  | Some ps => (0, {| paths := ps; apis := apis info |})
  | None => (1, info)
  end.

(** A call of the public interface, as a client makes it. *)
Inductive Op :=
| OpGet (name : string)
| OpLoadAll
| OpUnloadAll
| OpUnload (name : string)
| OpPaths
| OpPathInsert (n : Z) (path : string)
| OpPathAppend (path : string)
| OpPathAppendn (path : string) (n : nat)
| OpPathRemove (path : string).

Section Interface.

Context {sub : Substrate}.

Definition dlite_storage_plugin_path_remove (path : string) (w : World)
  : Z * World :=
  match get_storage_plugin_info w with
  | (None, w1) => (1, w1)
  | (Some info, w1) =>
    let '(r, info') := plugin_path_remove info path in
    (r, set_info (Some info') w1)
  end.

(** One call: the world it leaves, and whether the process goes on ([false]
    when the call ended the process). *)
Definition step (op : Op) (w : World) : bool * World :=
  match op with
  | OpGet name =>
    let '(out, w') := dlite_storage_plugin_get name w in
    (match out with Returned _ => true | _ => false end, w')
  | OpLoadAll => (true, (dlite_storage_plugin_load_all w).2)
  | OpUnloadAll => (true, dlite_storage_plugin_unload_all w)
  | OpUnload name => (true, (dlite_storage_plugin_unload name w).2)
  | OpPaths => (true, (dlite_storage_plugin_paths w).2)
  | OpPathInsert n path =>
    (true, (dlite_storage_plugin_path_insert n path w).2)
  | OpPathAppend path => (true, (dlite_storage_plugin_path_append path w).2)
  | OpPathAppendn path n =>
    (true, (dlite_storage_plugin_path_appendn path n w).2)
  | OpPathRemove path => (true, (dlite_storage_plugin_path_remove path w).2)
  end.

(** A client program: the calls are made in order until one of them ends
    the process. *)
Fixpoint run (prog : list Op) (w : World) : World :=
  match prog with
  | [] => w
  | op :: rest =>
    let '(alive, w') := step op w in
    if alive then run rest w' else w'
  end.

End Interface.

(** The current search path, when there is a registry. *)
Definition search_path (w : World) : option (list string) :=
  paths <$> storage_plugin_info w.

(** The calls that change the search path. *)
Definition mutates_path (op : Op) : bool :=
  match op with
  | OpPathInsert _ _ | OpPathAppend _ | OpPathAppendn _ _
  | OpPathRemove _ => true
  | _ => false
  end.

(** The calls that can rescan. *)
Definition may_rescan (op : Op) : bool :=
  match op with
  | OpGet _ | OpLoadAll => true
  | _ => false
  end.

(** The shared libraries a rescan probes, in scan order. *)
Definition all_files (files : gmap string (list SharedLib))
  (ps : list string) : list SharedLib :=
  ps ≫= λ d, default [] (files !! d).

(** The descriptor of the last file of [l] that reports the name [k]. *)
Fixpoint last_named (k : string) (l : list SharedLib)
  : option DLiteStoragePlugin :=
  match l with
  | [] => None
  | f :: l' =>
    match last_named k l' with
    | Some api => Some api
    | None =>
      match lib_api f with
      | Some api => if decide (plugin_name api = k) then Some api else None
      | None => None
      end
    end
  end.

(** A process in which the first allocation fails and the second
    succeeds. *)
Definition low_memory_world : World :=
  {| storage_plugin_info := None;
     storage_plugin_path_hash := zero_hash;
     mem := [false; true];
     use_build_root := true;
     dlite_root := "/usr";
     env_paths := [];
     fs := demo_fs;
     trace := [] |}.

Definition demo_step : Op → World → bool * World := step (sub := demo).

Definition demo_run : list Op → World → World := run (sub := demo).

Definition demo_unload : string → World → Z * World :=
  dlite_storage_plugin_unload (sub := demo).

(** ** Counting events *)

Lemma rescans_app t1 t2 : rescans (t1 ++ t2) = (rescans t1 + rescans t2)%nat.
Proof. unfold rescans. rewrite filter_app, length_app. reflexivity. Qed.

Lemma atexits_app t1 t2 : atexits (t1 ++ t2) = (atexits t1 + atexits t2)%nat.
Proof. unfold atexits. rewrite filter_app, length_app. reflexivity. Qed.

(** Evaluates the counters on the explicit pieces of a trace. *)
Ltac count_events :=
  rewrite ?rescans_app, ?atexits_app;
  repeat match goal with
  | |- context [rescans (?e :: ?t)] =>
      let v := eval vm_compute in (rescans (e :: t)) in
      change (rescans (e :: t)) with v
  | |- context [atexits (?e :: ?t)] =>
      let v := eval vm_compute in (atexits (e :: t)) in
      change (atexits (e :: t)) with v
  end.

(** ** memcmp decides equality of the two buffers *)

Lemma memcmp_list_0 (a b : list Byte.byte) :
  length a = length b → memcmp_list a b = 0 → a = b.
Proof.
  revert b. induction a as [|x a IH]; intros [|y b] Hlen Hcmp;
    try discriminate; [reflexivity|].
  simpl in Hcmp. destruct (decide (x = y)) as [->|Hne].
  - f_equal. apply IH; [by injection Hlen | done].
  - destruct (Byte.to_N x <? Byte.to_N y)%N; discriminate.
Qed.

Lemma memcmp_list_refl (a : list Byte.byte) : memcmp_list a a = 0.
Proof.
  induction a as [|x a IH]; [reflexivity|].
  simpl. destruct (decide (x = x)); [exact IH | contradiction].
Qed.

Lemma memcmp_0 (a b : hash32) : memcmp a b = 0 ↔ a = b.
Proof.
  unfold memcmp. split.
  - intros H. apply vec_to_list_inj2, memcmp_list_0; [|exact H].
    by rewrite !length_vec_to_list.
  - intros ->. apply memcmp_list_refl.
Qed.

(** ** The rescan *)

Lemma load_files_skip (l : list SharedLib) (m : gmap string DLiteStoragePlugin) :
  foldl load_file m (filter (λ f, is_Some (lib_api f)) l) = foldl load_file m l.
Proof.
  revert m. induction l as [|f l IH]; intros m; [reflexivity|].
  rewrite filter_cons. destruct (decide (is_Some (lib_api f))) as [Hs|Hn].
  - simpl. apply IH.
  - simpl. rewrite IH. f_equal. unfold load_file.
    destruct (lib_api f); [|reflexivity]. exfalso. apply Hn. eauto.
Qed.

Lemma load_dir_skip files m d :
  load_dir (only_loadable files) m d = load_dir files m d.
Proof.
  unfold load_dir, only_loadable. rewrite lookup_fmap.
  destruct (files !! d) as [l|]; simpl; [apply load_files_skip|reflexivity].
Qed.

(** A rescan registers what it would register if the files that cannot be
    loaded were not there. *)
Lemma plugin_load_all_skip files info :
  plugin_load_all (only_loadable files) info = plugin_load_all files info.
Proof.
  unfold plugin_load_all. f_equal. generalize (apis info).
  induction (paths info) as [|d ds IH]; intros m; [reflexivity|].
  simpl. rewrite load_dir_skip. apply IH.
Qed.

Lemma load_file_keeps m f k :
  is_Some (m !! k) → is_Some (load_file m f !! k).
Proof.
  intros Hk. unfold load_file. destruct (lib_api f) as [api|]; [|exact Hk].
  rewrite lookup_insert. by case_decide.
Qed.

Lemma load_files_keep l m k :
  is_Some (m !! k) → is_Some (foldl load_file m l !! k).
Proof.
  revert m. induction l as [|f l IH]; intros m Hk; [exact Hk|].
  simpl. by apply IH, load_file_keeps.
Qed.

Lemma load_files_registers l m f api :
  f ∈ l → lib_api f = Some api →
  is_Some (foldl load_file m l !! plugin_name api).
Proof.
  intros Hf Ha. revert m.
  induction Hf as [f l|f g l _ IH]; intros m; simpl.
  - apply load_files_keep. unfold load_file. rewrite Ha.
    rewrite lookup_insert_eq. eauto.
  - apply IH, Ha.
Qed.

Lemma load_dirs_keep files ds m k :
  is_Some (m !! k) → is_Some (foldl (load_dir files) m ds !! k).
Proof.
  revert m. induction ds as [|d ds IH]; intros m Hk; [exact Hk|].
  simpl. apply IH, load_files_keep, Hk.
Qed.

(** Every loadable file of every directory on the search path has its
    driver name registered by a rescan. *)
Lemma plugin_load_all_registers files info d l f api :
  d ∈ paths info → files !! d = Some l → f ∈ l → lib_api f = Some api →
  is_Some (apis (plugin_load_all files info) !! plugin_name api).
Proof.
  intros Hd Hl Hf Ha. unfold plugin_load_all. simpl.
  generalize (apis info). induction Hd as [d ds|d e ds _ IH]; intros m; simpl.
  - apply load_dirs_keep. unfold load_dir. rewrite Hl. simpl.
    by eapply load_files_registers.
  - by apply IH.
Qed.

(** ** Unloading *)

Lemma plugin_unload_registry (i : PluginInfo) (p : string) :
  (plugin_unload i p).2 = {| paths := paths i; apis := delete p (apis i) |}.
Proof.
  unfold plugin_unload. destruct (apis i !! p) eqn:E; [reflexivity|].
  destruct i as [ps m]. simpl in *. by rewrite delete_id.
Qed.

Lemma lookup_delete_all (ks : list string)
  (m : gmap string DLiteStoragePlugin) (k : string) :
  foldl (λ m k, delete k m) m ks !! k =
  if decide (k ∈ ks) then None else m !! k.
Proof.
  revert m. induction ks as [|k0 ks IH]; intros m; cbn [foldl].
  - by rewrite decide_False by apply not_elem_of_nil.
  - rewrite IH. destruct (decide (k ∈ ks)) as [Hin|Hnin].
    + by rewrite decide_True by (by right).
    + destruct (decide (k = k0)) as [->|Hne].
      * rewrite decide_True by left. apply lookup_delete_eq.
      * rewrite decide_False by (rewrite elem_of_cons; tauto).
        by apply lookup_delete_ne.
Qed.

(** Removing every registered name leaves the empty mapping. *)
Lemma delete_all_names (m : gmap string DLiteStoragePlugin) :
  foldl (λ m k, delete k m) m (map fst (map_to_list m)) = ∅.
Proof.
  apply map_eq. intros k. rewrite lookup_delete_all, lookup_empty.
  case_decide as Hk; [reflexivity|].
  destruct (m !! k) as [v|] eqn:E; [|reflexivity].
  exfalso. apply Hk. apply list_elem_of_fmap. exists (k, v).
  split; [reflexivity|]. by apply elem_of_map_to_list.
Qed.

(** ** The text of the failure message *)

Lemma append_empty_l (b : string) : EmptyString +:+ b = b.
Proof. reflexivity. Qed.

Lemma append_cons (x : Ascii.ascii) (a b : string) :
  String x a +:+ b = String x (a +:+ b).
Proof. reflexivity. Qed.

Lemma append_assoc (a b c : string) : (a +:+ b) +:+ c = a +:+ b +:+ c.
Proof.
  induction a as [|x a IH]; [reflexivity|].
  by rewrite !append_cons, IH.
Qed.

Lemma append_empty_r (a : string) : a +:+ EmptyString = a.
Proof.
  induction a as [|x a IH]; [reflexivity|]. by rewrite append_cons, IH.
Qed.

Lemma prefix_append (s t : string) : String.prefix s (s +:+ t) = true.
Proof.
  induction s as [|x s IH]; [by destruct t|].
  rewrite append_cons. simpl.
  destruct (Ascii.ascii_dec x x); [exact IH | contradiction].
Qed.

Lemma mentions_unfold (s msg : string) :
  mentions s msg =
  String.prefix s msg ||
  match msg with
  | EmptyString => false
  | String _ rest => mentions s rest
  end.
Proof. by destruct msg. Qed.

Lemma mentions_here (s t : string) : mentions s (s +:+ t) = true.
Proof. by rewrite mentions_unfold, prefix_append. Qed.

Lemma mentions_append_r (s a t : string) :
  mentions s t = true → mentions s (a +:+ t) = true.
Proof.
  intros H. induction a as [|x a IH]; [exact H|].
  rewrite append_cons, mentions_unfold, IH. apply orb_true_r.
Qed.

(** Whatever lies between two pieces of a text is mentioned by it. *)
Lemma mentions_inside (s a b : string) : mentions s (a +:+ s +:+ b) = true.
Proof. apply mentions_append_r, mentions_here. Qed.

Lemma message_lines_elem (p : string) (ps : list string) :
  p ∈ ps → ∃ a b, message_lines ps = a +:+ message_line p +:+ b.
Proof.
  induction 1 as [p ps|p q ps _ (a & b & IH)]; simpl.
  - exists EmptyString, (message_lines ps). reflexivity.
  - exists (message_line q +:+ a), b. by rewrite IH, append_assoc.
Qed.

Lemma message_loop (ps : list string) (buf : string) (n : Z) :
  foldl (λ '(buf, n) p, (buf +:+ "    " +:+ p +:+ nl, n + 1)) (buf, n) ps =
  (buf +:+ message_lines ps, n + Z.of_nat (length ps)).
Proof.
  revert buf n. induction ps as [|p ps IH]; intros buf n; simpl.
  - by rewrite append_empty_r, Z.add_0_r.
  - rewrite IH. f_equal.
    + by rewrite append_assoc.
    + lia.
Qed.

(** The message is the header, one line per directory of the search path,
    and the hint when at most one directory was listed. *)
Lemma not_found_message_eq (build_root : bool) (name : string)
  (ps : list string) :
  not_found_message build_root name ps =
  message_header name +:+ message_lines ps +:+
  (if decide (length ps ≤ 1)%nat then message_hint build_root
   else EmptyString).
Proof.
  unfold not_found_message. rewrite message_loop.
  change ("cannot find storage plugin for driver " +:+ dquote +:+ name +:+
          dquote +:+ " in search path:" +:+ nl) with (message_header name).
  destruct (decide (length ps ≤ 1)%nat) as [Hle|Hgt].
  - rewrite (proj2 (Z.leb_le _ _)) by lia.
    by rewrite append_assoc.
  - rewrite (proj2 (Z.leb_gt _ _)) by lia.
    by rewrite append_empty_r.
Qed.

Lemma message_mentions_name build_root name ps :
  mentions name (not_found_message build_root name ps) = true.
Proof.
  rewrite not_found_message_eq. unfold message_header.
  rewrite !append_assoc. do 2 apply mentions_append_r. apply mentions_here.
Qed.

Lemma message_mentions_path build_root name ps p :
  p ∈ ps →
  mentions (message_line p) (not_found_message build_root name ps) = true ∧
  mentions p (not_found_message build_root name ps) = true.
Proof.
  intros Hp. rewrite not_found_message_eq.
  destruct (message_lines_elem _ _ Hp) as (a & b & ->).
  rewrite !append_assoc. split.
  - rewrite <- (append_assoc (message_header name)). apply mentions_inside.
  - unfold message_line at 1. rewrite !append_assoc.
    do 3 apply mentions_append_r. apply mentions_here.
Qed.

Lemma message_mentions_hint build_root name ps :
  (length ps ≤ 1)%nat →
  mentions (message_hint build_root) (not_found_message build_root name ps)
    = true.
Proof.
  intros Hle. rewrite not_found_message_eq.
  destruct (decide _); [|contradiction].
  do 2 apply mentions_append_r.
  rewrite <- (append_empty_r (message_hint build_root)) at 2.
  apply mentions_here.
Qed.

Section RegistryFacts.

Context {sub : Substrate}.

(** *** Lazy initialisation *)

Lemma get_info_initialised w info :
  storage_plugin_info w = Some info → get_storage_plugin_info w = (Some info, w).
Proof. intros H. unfold get_storage_plugin_info. by rewrite H. Qed.

Lemma get_info_create w :
  storage_plugin_info w = None → next_alloc w = true →
  let info := {| paths := seeded_paths w; apis := ∅ |} in
  get_storage_plugin_info w =
    (Some info,
     log EvAddDllPath (set_info (Some info) (log EvSetPlatform (log EvAtexit
       (set_info (Some {| paths := env_paths w; apis := ∅ |})
          (log (EvInfoCreate true) (set_mem (tail (mem w)) w))))))).
Proof.
  intros H Hm. unfold get_storage_plugin_info, plugin_info_create.
  unfold next_alloc in Hm. rewrite H, Hm. simpl.
  unfold seeded_paths, plugin_path_extend_prefix, plugin_path_extend.
  by destruct (use_build_root w).
Qed.

Lemma get_info_fail w :
  storage_plugin_info w = None → next_alloc w = false →
  get_storage_plugin_info w =
    (None, set_info None (log (EvInfoCreate false) (set_mem (tail (mem w)) w))).
Proof.
  intros H Hm. unfold get_storage_plugin_info, plugin_info_create.
  unfold next_alloc in Hm. by rewrite H, Hm.
Qed.

(** What a call of [get_storage_plugin_info] leaves behind, in all three
    cases. *)
Lemma get_info_post w r w1 :
  get_storage_plugin_info w = (r, w1) →
  storage_plugin_info w1 = r ∧
  storage_plugin_path_hash w1 = storage_plugin_path_hash w ∧
  fs w1 = fs w ∧ use_build_root w1 = use_build_root w ∧
  rescans (trace w1) = rescans (trace w) ∧
  (∀ info, storage_plugin_info w = Some info → r = Some info ∧ w1 = w) ∧
  (storage_plugin_info w = None → ∀ info, r = Some info →
     info = {| paths := seeded_paths w; apis := ∅ |}).
Proof.
  intros Hg. destruct (storage_plugin_info w) as [info|] eqn:Hi.
  - rewrite (get_info_initialised _ _ Hi) in Hg. injection Hg as <- <-.
    repeat split; try done; by intros i [= <-].
  - destruct (next_alloc w) eqn:Hm.
    + rewrite (get_info_create _ Hi Hm) in Hg. injection Hg as <- <-.
      simpl. count_events. rewrite !Nat.add_0_r.
      repeat split; try done. by intros _ i [= <-].
    + rewrite (get_info_fail _ Hi Hm) in Hg. injection Hg as <- <-.
      simpl. count_events. rewrite !Nat.add_0_r.
      repeat split; done.
Qed.

Lemma get_info_registry w r w1 :
  get_storage_plugin_info w = (r, w1) → storage_plugin_info w1 = r.
Proof. intros H. by destruct (get_info_post _ _ _ H). Qed.

(** *** Resolution: the four ways through [dlite_storage_plugin_get] *)

Lemma get_unavailable name w w1 :
  get_storage_plugin_info w = (None, w1) → dlite_storage_plugin_get name w = (Returned None, w1).
Proof. intros Hg. unfold dlite_storage_plugin_get. by rewrite Hg. Qed.

Lemma get_fast name w info w1 api :
  get_storage_plugin_info w = (Some info, w1) → apis info !! name = Some api →
  dlite_storage_plugin_get name w = (Returned (Some api), log (EvGetApi name) w1).
Proof.
  intros Hg Hl. unfold dlite_storage_plugin_get, plugin_get_api.
  by rewrite Hg, Hl.
Qed.

Lemma get_rescan name w info w1 h :
  get_storage_plugin_info w = (Some info, w1) → apis info !! name = None →
  pathshash (paths info) = Some h → h ≠ storage_plugin_path_hash w1 →
  dlite_storage_plugin_get name w =
    let info' := plugin_load_all (fs w1) info in
    let w6 := log (EvGetApi name) (set_hash h (log EvLoadAll
                (set_info (Some info')
                   (log EvPathsHash (log (EvGetApi name) w1))))) in
    match apis info' !! name with
    | Some api => (Returned (Some api), w6)
    | None =>
      errx 1 (not_found_message (use_build_root w1) name (paths info')) w6
    end.
Proof.
  intros Hg Hl Hh Hne. pose proof (get_info_registry _ _ _ Hg) as Hr.
  unfold dlite_storage_plugin_get, plugin_get_api.
  rewrite Hg, Hl. simpl. rewrite Hr, Hh.
  destruct (decide _) as [_|Heq].
  - destruct (apis (plugin_load_all (fs w1) info) !! name) eqn:Hl2;
      [reflexivity|].
    unfold dlite_storage_plugin_paths.
    by erewrite get_info_initialised by reflexivity.
  - exfalso. apply Heq. intros Hc. apply Hne. symmetry. by apply memcmp_0.
Qed.

Lemma get_no_rescan name w info w1 :
  get_storage_plugin_info w = (Some info, w1) → apis info !! name = None →
  pathshash (paths info) = None ∨
  pathshash (paths info) = Some (storage_plugin_path_hash w1) →
  dlite_storage_plugin_get name w =
    errx 1 (not_found_message (use_build_root w1) name (paths info))
      (log EvPathsHash (log (EvGetApi name) w1)).
Proof.
  intros Hg Hl Hh. pose proof (get_info_registry _ _ _ Hg) as Hr.
  unfold dlite_storage_plugin_get, plugin_get_api.
  rewrite Hg, Hl. simpl. rewrite Hr.
  assert (Hpaths : dlite_storage_plugin_paths
            (log EvPathsHash (log (EvGetApi name) w1)) =
          (Some (paths info), log EvPathsHash (log (EvGetApi name) w1))).
  { unfold dlite_storage_plugin_paths.
    by erewrite get_info_initialised by exact Hr. }
  destruct Hh as [->| ->]; [by rewrite Hpaths|].
  destruct (decide _) as [Hne|_]; [|by rewrite Hpaths].
  exfalso. apply Hne. by apply memcmp_0.
Qed.

Lemma get_cases name w :
  (∃ w1, get_storage_plugin_info w = (None, w1) ∧ dlite_storage_plugin_get name w = (Returned None, w1)) ∨
  (∃ info w1 api,
     get_storage_plugin_info w = (Some info, w1) ∧ apis info !! name = Some api ∧
     dlite_storage_plugin_get name w = (Returned (Some api), log (EvGetApi name) w1)) ∨
  (∃ info w1 h,
     get_storage_plugin_info w = (Some info, w1) ∧ apis info !! name = None ∧
     pathshash (paths info) = Some h ∧ h ≠ storage_plugin_path_hash w1 ∧
     dlite_storage_plugin_get name w =
       let info' := plugin_load_all (fs w1) info in
       let w6 := log (EvGetApi name) (set_hash h (log EvLoadAll
                   (set_info (Some info')
                      (log EvPathsHash (log (EvGetApi name) w1))))) in
       match apis info' !! name with
       | Some api => (Returned (Some api), w6)
       | None =>
         errx 1 (not_found_message (use_build_root w1) name (paths info')) w6
       end) ∨
  (∃ info w1,
     get_storage_plugin_info w = (Some info, w1) ∧ apis info !! name = None ∧
     (pathshash (paths info) = None ∨
      pathshash (paths info) = Some (storage_plugin_path_hash w1)) ∧
     dlite_storage_plugin_get name w =
       errx 1 (not_found_message (use_build_root w1) name (paths info))
         (log EvPathsHash (log (EvGetApi name) w1))).
Proof.
  destruct (get_storage_plugin_info w) as [[info|] w1] eqn:Hg.
  - destruct (apis info !! name) as [api|] eqn:Hl.
    + right; left. exists info, w1, api.
      repeat split; [done|]. exact (get_fast _ _ _ _ _ Hg Hl).
    + destruct (pathshash (paths info)) as [h|] eqn:Hh;
        [destruct (decide (h = storage_plugin_path_hash w1)) as [->|Hne]|].
      * do 3 right. exists info, w1.
        repeat split; [done|by right|].
        apply (get_no_rescan _ _ _ _ Hg Hl). by right.
      * right; right; left. exists info, w1, h.
        repeat split; [done..|]. exact (get_rescan _ _ _ _ _ Hg Hl Hh Hne).
      * do 3 right. exists info, w1.
        repeat split; [done|by left|].
        apply (get_no_rescan _ _ _ _ Hg Hl). by left.
  - left. exists w1. split; [done|]. exact (get_unavailable _ _ _ Hg).
Qed.

(** C5, as the code has it.  The message of a failed resolution is the
    header naming the requested driver, then one line for every directory
    of the current search path, then - only when at most one directory was
    listed - the hint.  The hint names DLITE_STORAGE_PLUGIN_DIRS, preceded
    by DLITE_ROOT when the installed-prefix mode is active.  With two or
    more directories the message ends after the last directory. *)
Theorem dlite_storage_plugin_get_message name w e msg w' :
  dlite_storage_plugin_get name w = (Exited e msg, w') →
  e = 1 ∧
  ∃ info, storage_plugin_info w' = Some info ∧
    msg = message_header name +:+ message_lines (paths info) +:+
          (if decide (length (paths info) ≤ 1)%nat
           then message_hint (use_build_root w') else EmptyString) ∧
    mentions name msg = true ∧
    (∀ p, p ∈ paths info →
       mentions (message_line p) msg = true ∧ mentions p msg = true) ∧
    ((length (paths info) ≤ 1)%nat →
       mentions (message_hint (use_build_root w')) msg = true) ∧
    (∀ b, mentions "DLITE_STORAGE_PLUGIN_DIRS" (message_hint b) = true ∧
          mentions "DLITE_ROOT" (message_hint b) = negb b).
Proof.
  assert (Hmsg : ∀ b ps,
    let m := not_found_message b name ps in
    m = message_header name +:+ message_lines ps +:+
        (if decide (length ps ≤ 1)%nat then message_hint b
         else EmptyString) ∧
    mentions name m = true ∧
    (∀ p, p ∈ ps → mentions (message_line p) m = true ∧ mentions p m = true) ∧
    ((length ps ≤ 1)%nat → mentions (message_hint b) m = true) ∧
    (∀ b, mentions "DLITE_STORAGE_PLUGIN_DIRS" (message_hint b) = true ∧
          mentions "DLITE_ROOT" (message_hint b) = negb b)).
  { intros b ps m. subst m. split; [apply not_found_message_eq|].
    split; [apply message_mentions_name|].
    split; [intros p Hp; by apply message_mentions_path|].
    split; [apply message_mentions_hint|].
    intros []; split; reflexivity. }
  destruct (get_cases name w) as
    [(w1 & Hg & ->)|[(info & w1 & api & Hg & Hl & ->)|
    [(info & w1 & h & Hg & Hl & Hh & Hne & ->)|
     (info & w1 & Hg & Hl & Hh & ->)]]]; try discriminate.
  - cbv zeta.
    destruct (apis (plugin_load_all (fs w1) info) !! name); [discriminate|].
    unfold errx. intros [= <- <- <-]. split; [reflexivity|].
    eexists. split; [reflexivity|]. apply Hmsg.
  - unfold errx. intros [= <- <- <-]. split; [reflexivity|].
    exists info. split; [by apply get_info_registry in Hg|]. apply Hmsg.
Qed.

(** A descriptor that is returned is registered under the name asked
    for. *)
Lemma get_returned_registered name w api w' :
  dlite_storage_plugin_get name w = (Returned (Some api), w') →
  ∃ info', storage_plugin_info w' = Some info' ∧
           plugin_get_api info' name = Some api.
Proof.
  unfold plugin_get_api.
  destruct (get_cases name w) as
    [(w1 & Hg & ->)|[(info & w1 & api' & Hg & Hl & ->)|
    [(info & w1 & h & Hg & Hl & Hh & Hne & ->)|
     (info & w1 & Hg & Hl & Hh & ->)]]]; try discriminate.
  - intros [= <- <-]. exists info. split; [|exact Hl].
    by apply get_info_registry in Hg.
  - cbv zeta.
    destruct (apis (plugin_load_all (fs w1) info) !! name) eqn:Hl2;
      [|discriminate].
    intros [= <- <-]. eauto.
Qed.

(** C1.  The resolution order of [dlite_storage_plugin_get], for a registry
    that is available.  A name that is registered is returned at once: the
    only call made is the lookup, and nothing else in the world changes.
    Otherwise the digest of the current search path is computed, and a
    rescan is performed if and only if that digest was computed and
    differs from the cached hash; the rescan is followed by the update of
    the cached hash to the new digest and by one more lookup, whose result
    is returned when it succeeds.  Without a rescan the registry and the
    cached hash stay as they were and there is no second lookup.  A name
    that has been resolved is resolved again to the same descriptor by the
    lookup alone. *)
Theorem dlite_storage_plugin_get_resolution_order name w info w1 :
  get_storage_plugin_info w = (Some info, w1) →
  let '(out, w') := dlite_storage_plugin_get name w in
  match plugin_get_api info name with
  | Some api =>
      out = Returned (Some api) ∧ w' = log (EvGetApi name) w1 ∧
      (is_Some (storage_plugin_info w) → w1 = w)
  | None =>
      let changed :=
        ∃ h, pathshash (paths info) = Some h ∧
             h ≠ storage_plugin_path_hash w1 in
      (changed ↔ rescans (trace w') = S (rescans (trace w1))) ∧
      (∀ h, pathshash (paths info) = Some h →
         h ≠ storage_plugin_path_hash w1 →
         let info' := plugin_load_all (fs w1) info in
         storage_plugin_info w' = Some info' ∧
         storage_plugin_path_hash w' = h ∧
         match plugin_get_api info' name with
         | Some api =>
             out = Returned (Some api) ∧
             trace w' = trace w1 ++
               [EvGetApi name; EvPathsHash; EvLoadAll; EvGetApi name]
         | None =>
             ∃ msg, out = Exited 1 msg ∧
             trace w' = trace w1 ++
               [EvGetApi name; EvPathsHash; EvLoadAll; EvGetApi name;
                EvErrx 1 msg]
         end) ∧
      (¬ changed →
         storage_plugin_info w' = Some info ∧
         storage_plugin_path_hash w' = storage_plugin_path_hash w1 ∧
         ∃ msg, out = Exited 1 msg ∧
         trace w' = trace w1 ++ [EvGetApi name; EvPathsHash; EvErrx 1 msg])
  end ∧
  (∀ api, out = Returned (Some api) →
     dlite_storage_plugin_get name w' =
       (Returned (Some api), log (EvGetApi name) w')).
Proof.
  intros Hg.
  destruct (dlite_storage_plugin_get name w) as [out w'] eqn:Hget.
  split; cycle 1.
  { intros api ->.
    destruct (get_returned_registered _ _ _ _ Hget) as (info' & Hi & Hl).
    exact (get_fast _ _ _ _ _ (get_info_initialised _ _ Hi) Hl). }
  revert Hget. unfold plugin_get_api.
  pose proof (get_info_post _ _ _ Hg) as (Hr & _ & _ & _ & _ & Hsame & _).
  destruct (apis info !! name) as [api|] eqn:Hl.
  - rewrite (get_fast _ _ _ _ _ Hg Hl). intros [= <- <-]. repeat split.
    intros [i Hi]. by destruct (Hsame i Hi).
  - destruct (pathshash (paths info)) as [h|] eqn:Hh;
      [destruct (decide (h = storage_plugin_path_hash w1)) as [->|Hne]|].
    + rewrite (get_no_rescan _ _ _ _ Hg Hl) by (right; exact Hh).
      intros [= <- <-]. simpl. split; [|split].
      * split; [intros (h & [= <-] & Hne); contradiction|].
        count_events. lia.
      * intros h [= <-] Hne. contradiction.
      * intros _. repeat split; [done|]. eexists. split; [reflexivity|].
        by rewrite <- !app_assoc.
    + rewrite (get_rescan _ _ _ _ _ Hg Hl Hh Hne). cbv zeta.
      destruct (apis (plugin_load_all (fs w1) info) !! name) as [api|] eqn:Hl2;
        intros [= <- <-];
        cbn [errx log set_hash set_info trace storage_plugin_info
             storage_plugin_path_hash]; (split; [|split]).
      * split; [intros _; count_events; lia | intros _; eauto].
      * intros h' [= <-] _. repeat split. by rewrite <- !app_assoc.
      * intros Hn. exfalso. apply Hn. eauto.
      * split; [intros _; count_events; lia | intros _; eauto].
      * intros h' [= <-] _. repeat split.
        eexists. split; [reflexivity|]. by rewrite <- !app_assoc.
      * intros Hn. exfalso. apply Hn. eauto.
    + rewrite (get_no_rescan _ _ _ _ Hg Hl) by (left; exact Hh).
      intros [= <- <-]. simpl. split; [|split].
      * split; [intros (h & [=] & _)|]. count_events. lia.
      * intros h [=].
      * intros _. repeat split; [done|]. eexists. split; [reflexivity|].
        by rewrite <- !app_assoc.
Qed.

(** One call registers the hook when, and only when, it creates the
    registry. *)
Lemma get_info_hook w (k : nat) :
  (storage_plugin_info w = None ∧ atexits (trace w) = k) ∨
  (is_Some (storage_plugin_info w) ∧ atexits (trace w) = S k) →
  atexits (trace (get_storage_plugin_info w).2) =
    (k + if storage_plugin_info (get_storage_plugin_info w).2 is Some _ then 1 else 0)%nat.
Proof.
  intros [[Hi Hk]|[[info Hi] Hk]].
  - destruct (next_alloc w) eqn:Hm.
    + rewrite (get_info_create _ Hi Hm). simpl. count_events. lia.
    + rewrite (get_info_fail _ Hi Hm). simpl. count_events. lia.
  - rewrite (get_info_initialised _ _ Hi). simpl. rewrite Hi, Hk. lia.
Qed.


(** What one call of [dlite_storage_plugin_get] does to the registry, the
    cached hash and the number of rescans: either nothing, or one rescan
    together with the update of the cached hash. *)
Lemma get_effect name w info w0 :
  get_storage_plugin_info w = (Some info, w0) →
  let w' := (dlite_storage_plugin_get name w).2 in
  fs w' = fs w ∧
  ((storage_plugin_info w' = Some info ∧
    storage_plugin_path_hash w' = storage_plugin_path_hash w ∧
    rescans (trace w') = rescans (trace w) ∧
    (is_Some (apis info !! name) ∨ pathshash (paths info) = None ∨
     pathshash (paths info) = Some (storage_plugin_path_hash w))) ∨
   (∃ h, apis info !! name = None ∧ pathshash (paths info) = Some h ∧
      h ≠ storage_plugin_path_hash w ∧
      storage_plugin_info w' = Some (plugin_load_all (fs w) info) ∧
      storage_plugin_path_hash w' = h ∧
      rescans (trace w') = S (rescans (trace w)))).
Proof.
  intros Hg.
  pose proof (get_info_post _ _ _ Hg) as (Hr & Hh & Hfs & _ & Hn & _).
  destruct (get_cases name w) as
    [(w1 & Hg' & ->)|[(i & w1 & api & Hg' & Hl & ->)|
    [(i & w1 & h & Hg' & Hl & Hh' & Hne & ->)|
     (i & w1 & Hg' & Hl & Hh' & ->)]]];
    rewrite Hg in Hg'; simplify_eq; cbv zeta.
  - cbn [snd log set_hash set_info fs trace storage_plugin_info
         storage_plugin_path_hash].
    split; [done|]. left. count_events. rewrite Hn.
    repeat split; [done | done | lia | eauto].
  - destruct (apis (plugin_load_all (fs w1) i) !! name);
      cbn [snd errx log set_hash set_info fs trace storage_plugin_info
           storage_plugin_path_hash];
      (split; [done|]); right; exists h; rewrite <- Hfs, <- Hh;
      count_events; rewrite Hn; repeat split; try done; lia.
  - cbn [snd errx log set_hash set_info fs trace storage_plugin_info
         storage_plugin_path_hash].
    split; [done|]. left. count_events. rewrite Hn.
    repeat split; [done | done | lia |]. right. by rewrite <- Hh.
Qed.

Lemma get_effect_unavailable name w w1 :
  get_storage_plugin_info w = (None, w1) →
  rescans (trace (dlite_storage_plugin_get name w).2) = rescans (trace w).
Proof.
  intros Hg. rewrite (get_unavailable _ _ _ Hg). simpl.
  by destruct (get_info_post _ _ _ Hg) as (_ & _ & _ & _ & ? & _).
Qed.

(** A call performs at most one rescan. *)
Lemma get_at_most_one_rescan name w :
  (rescans (trace w) ≤ rescans (trace (dlite_storage_plugin_get name w).2) ≤
   S (rescans (trace w)))%nat.
Proof.
  destruct (get_storage_plugin_info w) as [[info|] w1] eqn:Hg.
  - destruct (get_effect name _ _ _ Hg) as
      (_ & [(_ & _ & -> & _)|(h & _ & _ & _ & _ & _ & ->)]); lia.
  - rewrite (get_effect_unavailable _ _ _ Hg). lia.
Qed.

Lemma path_append_available p w info :
  storage_plugin_info w = Some info →
  dlite_storage_plugin_path_append p w =
    (Z.of_nat (length (paths info)),
     set_info (Some {| paths := paths info ++ [p]; apis := apis info |}) w).
Proof.
  intros Hi. unfold dlite_storage_plugin_path_append.
  by rewrite (get_info_initialised _ _ Hi).
Qed.

(** With a registry, a name that is not registered and a digest that
    differs from the cached hash, the call rescans once. *)
Lemma get_rescans_once name w info h :
  storage_plugin_info w = Some info → apis info !! name = None →
  pathshash (paths info) = Some h → h ≠ storage_plugin_path_hash w →
  rescans (trace (dlite_storage_plugin_get name w).2) = S (rescans (trace w)).
Proof.
  intros Hi Hl Hh Hne.
  destruct (get_effect name _ _ _ (get_info_initialised _ _ Hi)) as
    (_ & [(_ & _ & _ & [[? Hs]|[Hs|Hs]])|(? & _ & _ & _ & _ & _ & ->)]);
    [congruence..|reflexivity].
Qed.

(** With a registry whose cached hash is the digest of its search path, a
    name that is not registered makes the call fail without a rescan and
    without a change to the registry or to the cached hash. *)
Lemma get_in_sync_fails name w info :
  storage_plugin_info w = Some info → apis info !! name = None →
  pathshash (paths info) = Some (storage_plugin_path_hash w) →
  let '(out, w') := dlite_storage_plugin_get name w in
  (∃ msg, out = Exited 1 msg) ∧
  rescans (trace w') = rescans (trace w) ∧
  storage_plugin_info w' = Some info ∧
  storage_plugin_path_hash w' = storage_plugin_path_hash w.
Proof.
  intros Hi Hl Hh.
  rewrite (get_no_rescan _ _ _ _ (get_info_initialised _ _ Hi) Hl)
    by (right; exact Hh).
  cbn [errx log trace storage_plugin_info storage_plugin_path_hash].
  count_events. repeat split; eauto; lia.
Qed.

Lemma load_all_unavailable w w1 :
  get_storage_plugin_info w = (None, w1) → dlite_storage_plugin_load_all w = (1, w1).
Proof. intros Hg. unfold dlite_storage_plugin_load_all. by rewrite Hg. Qed.

Lemma load_all_available w info w1 :
  get_storage_plugin_info w = (Some info, w1) →
  dlite_storage_plugin_load_all w =
    (0, log EvLoadAll (set_info (Some (plugin_load_all (fs w1) info)) w1)).
Proof. intros Hg. unfold dlite_storage_plugin_load_all. by rewrite Hg. Qed.

(** After a resolution that missed the mapping, the cached hash is the
    digest of the search path, whenever that digest can be computed. *)
Lemma get_miss_syncs name w info w0 info1 h0 :
  get_storage_plugin_info w = (Some info, w0) →
  plugin_get_api info name = None →
  storage_plugin_info (dlite_storage_plugin_get name w).2 = Some info1 →
  pathshash (paths info1) = Some h0 →
  storage_plugin_path_hash (dlite_storage_plugin_get name w).2 = h0.
Proof.
  intros Hg Hl Hi Hh0.
  destruct (get_effect name _ _ _ Hg) as
    (_ & [(Hi' & Hh & _ & Hwhy)|(h & _ & Hh & _ & Hi' & Hc & _)]).
  - rewrite Hi' in Hi. injection Hi as <-. rewrite Hh.
    destruct Hwhy as [[? Hs]|[Hn|Hs]]; unfold plugin_get_api in Hl;
      congruence.
  - rewrite Hi' in Hi. injection Hi as <-. simpl in Hh0. congruence.
Qed.

(** C3.  The rescan is gated by the hash.  Two consecutive resolutions
    perform at most one rescan between them; when the first of them was
    for a name that was not registered (so that it went through the hash
    gate), the second performs none, whatever name it asks for.  After a
    new directory has been appended to the search path, the next
    resolution of a name that is still missing performs exactly one
    rescan, provided the digest of the extended search path is not the
    cached hash; that is the case after a resolution that missed whenever
    the digest tells the extended search path from the one before. *)
Theorem dlite_storage_plugin_get_hash_gated n1 n2 w :
  let w1 := (dlite_storage_plugin_get n1 w).2 in
  let w2 := (dlite_storage_plugin_get n2 w1).2 in
  (rescans (trace w2) ≤ S (rescans (trace w)))%nat ∧
  (∀ info w0,
     get_storage_plugin_info w = (Some info, w0) →
     plugin_get_api info n1 = None →
     rescans (trace w2) = rescans (trace w1)) ∧
  (∀ info1 p h,
     storage_plugin_info w1 = Some info1 →
     plugin_get_api info1 n2 = None →
     pathshash (paths info1 ++ [p]) = Some h →
     h ≠ storage_plugin_path_hash w1 →
     let w3 := (dlite_storage_plugin_path_append p w1).2 in
     rescans (trace (dlite_storage_plugin_get n2 w3).2) =
       S (rescans (trace w3))) ∧
  (∀ info w0 info1 p h0 h,
     get_storage_plugin_info w = (Some info, w0) →
     plugin_get_api info n1 = None →
     storage_plugin_info w1 = Some info1 →
     plugin_get_api info1 n2 = None →
     pathshash (paths info1) = Some h0 →
     pathshash (paths info1 ++ [p]) = Some h → h ≠ h0 →
     let w3 := (dlite_storage_plugin_path_append p w1).2 in
     rescans (trace (dlite_storage_plugin_get n2 w3).2) =
       S (rescans (trace w3))).
Proof.
  intros w1 w2. unfold plugin_get_api.
  assert (Hsecond : ∀ info w0,
    get_storage_plugin_info w = (Some info, w0) →
    rescans (trace w1) = S (rescans (trace w)) ∨ apis info !! n1 = None →
    rescans (trace w2) = rescans (trace w1)).
  { intros info w0 Hg Hfirst.
    destruct (get_effect n1 _ _ _ Hg) as (_ & Heff). fold w1 in Heff.
    assert (∃ i, storage_plugin_info w1 = Some i ∧ paths i = paths info ∧
              (pathshash (paths info) = None ∨
               pathshash (paths info) = Some (storage_plugin_path_hash w1)))
      as (i & Hi & Hp & Hsync).
    { destruct Heff as [(Hi & Hh & Hn & Hwhy)|(h & _ & Hh & _ & Hi & Hc & _)].
      - exists info. rewrite Hh. repeat split; [done|].
        destruct Hfirst as [Hf|Hl]; [lia|].
        destruct Hwhy as [[? Hs]|?]; [congruence|done].
      - eexists. split; [exact Hi|]. split; [reflexivity|].
        right. by rewrite Hc. }
    destruct (get_effect n2 _ _ _ (get_info_initialised _ _ Hi)) as
      (_ & [(_ & _ & Hn & _)|(h & _ & Hh & Hne & _)]); [exact Hn|].
    rewrite Hp in Hh. destruct Hsync as [Hs|Hs]; congruence. }
  assert (Hafter : ∀ info1 p h,
    storage_plugin_info w1 = Some info1 → apis info1 !! n2 = None →
    pathshash (paths info1 ++ [p]) = Some h →
    h ≠ storage_plugin_path_hash w1 →
    rescans (trace (dlite_storage_plugin_get n2
                      (dlite_storage_plugin_path_append p w1).2).2) =
      S (rescans (trace (dlite_storage_plugin_path_append p w1).2))).
  { intros info1 p h Hi Hl Hh Hne.
    rewrite (path_append_available _ _ _ Hi). cbn [snd].
    apply (get_rescans_once n2 _
             {| paths := paths info1 ++ [p]; apis := apis info1 |} h);
      done. }
  split; [|split; [|split]].
  - pose proof (get_at_most_one_rescan n1 w) as H1.
    pose proof (get_at_most_one_rescan n2 w1) as H2.
    fold w1 in H1. fold w2 in H2.
    destruct (decide (rescans (trace w1) = rescans (trace w))) as [He|Hne];
      [lia|].
    destruct (get_storage_plugin_info w) as [[info|] w0] eqn:Hg.
    + rewrite (Hsecond info w0 eq_refl); [lia|]. left. lia.
    + pose proof (get_effect_unavailable n1 _ _ Hg) as Hu.
      fold w1 in Hu. lia.
  - intros info w0 Hg Hl. apply (Hsecond info w0 Hg). by right.
  - intros info1 p h Hi Hl Hh Hne. by eapply Hafter.
  - intros info w0 info1 p h0 h Hg Hl1 Hi Hl2 Hh0 Hh Hne.
    eapply Hafter; [done..|]. subst w1.
    by rewrite (get_miss_syncs n1 w info w0 info1 h0).
Qed.

(** *** Unload-all *)

Lemma unload_loop (names : list string) w i :
  storage_plugin_info w = Some i →
  let w' :=
    foldl (λ w p,
             match storage_plugin_info w with
             | Some i =>
               log (EvUnload p) (set_info (Some (plugin_unload i p).2) w)
             | None => w
             end) w names in
  storage_plugin_info w' =
    Some {| paths := paths i;
            apis := foldl (λ m k, delete k m) (apis i) names |} ∧
  storage_plugin_path_hash w' = storage_plugin_path_hash w ∧
  fs w' = fs w ∧
  trace w' = trace w ++ (EvUnload <$> names).
Proof.
  revert w i. induction names as [|p names IH]; intros w i Hi; simpl.
  - rewrite Hi, app_nil_r. by destruct i.
  - rewrite Hi, plugin_unload_registry.
    edestruct (IH (log (EvUnload p) (set_info
                 (Some {| paths := paths i; apis := delete p (apis i) |}) w)))
      as (H1 & H2 & H3 & H4); [reflexivity|].
    rewrite H1, H2, H3, H4. simpl. by rewrite <- app_assoc.
Qed.

Lemma unload_all_available w info :
  storage_plugin_info w = Some info →
  let w' := dlite_storage_plugin_unload_all w in
  storage_plugin_info w' = Some {| paths := paths info; apis := ∅ |} ∧
  storage_plugin_path_hash w' = storage_plugin_path_hash w ∧
  fs w' = fs w ∧
  trace w' = trace w ++ (EvUnload <$> map fst (map_to_list (apis info))).
Proof.
  intros Hi. unfold dlite_storage_plugin_unload_all.
  rewrite (get_info_initialised _ _ Hi). unfold plugin_names.
  destruct (unload_loop (map fst (map_to_list (apis info))) w info Hi)
    as (H1 & H2 & H3 & H4).
  rewrite delete_all_names in H1. done.
Qed.

(** X12.  [dlite_storage_plugin_unload_all] unloads every registered name
    and leaves the mapping empty, the search path and the cached hash as
    they were.  When the cached hash is the digest of the search path (as
    a rescan inside [dlite_storage_plugin_get] leaves it, and a rescan by
    [dlite_storage_plugin_load_all] does not), resolving any
    name afterwards fails without a rescan, and leaves registry and hash
    as they are, so that the next resolution fails in the same way.  A
    call of [dlite_storage_plugin_load_all] rescans and registers what the
    search path provides; and after a directory has been appended whose
    digest differs from the cached hash, the next resolution rescans. *)
Theorem dlite_storage_plugin_unload_all_keeps_hash w info name :
  storage_plugin_info w = Some info →
  let w1 := dlite_storage_plugin_unload_all w in
  storage_plugin_info w1 = Some {| paths := paths info; apis := ∅ |} ∧
  storage_plugin_path_hash w1 = storage_plugin_path_hash w ∧
  trace w1 = trace w ++ (EvUnload <$> map fst (map_to_list (apis info))) ∧
  (∀ n, is_Some (apis info !! n) ↔
        n ∈ map fst (map_to_list (apis info))) ∧
  (pathshash (paths info) = Some (storage_plugin_path_hash w) →
     let '(out, w2) := dlite_storage_plugin_get name w1 in
     (∃ msg, out = Exited 1 msg) ∧
     rescans (trace w2) = rescans (trace w1) ∧
     storage_plugin_info w2 = storage_plugin_info w1 ∧
     storage_plugin_path_hash w2 = storage_plugin_path_hash w1) ∧
  (let '(ret, w3) := dlite_storage_plugin_load_all w1 in
   ret = 0 ∧ rescans (trace w3) = S (rescans (trace w1)) ∧
   storage_plugin_info w3 =
     Some (plugin_load_all (fs w) {| paths := paths info; apis := ∅ |}) ∧
   ∀ api,
     apis (plugin_load_all (fs w) {| paths := paths info; apis := ∅ |})
       !! name = Some api →
     (dlite_storage_plugin_get name w3).1 = Returned (Some api)) ∧
  (∀ p h,
     pathshash (paths info ++ [p]) = Some h →
     h ≠ storage_plugin_path_hash w →
     let w3 := (dlite_storage_plugin_path_append p w1).2 in
     rescans (trace (dlite_storage_plugin_get name w3).2) = S (rescans (trace w3))).
Proof.
  intros Hi w1.
  destruct (unload_all_available _ _ Hi) as (H1 & H2 & H3 & H4).
  fold w1 in H1, H2, H3, H4.
  split; [exact H1|]. split; [exact H2|]. split; [exact H4|].
  split; [|split; [|split]].
  - intros n. rewrite list_elem_of_fmap. split.
    + intros [v Hv]. exists (n, v). split; [reflexivity|].
      by apply elem_of_map_to_list.
    + intros ([k v] & -> & Hkv). apply elem_of_map_to_list in Hkv. eauto.
  - intros Hsync.
    pose proof (get_in_sync_fails name w1 _ H1 (lookup_empty _)) as Hf.
    simpl in Hf. rewrite H2 in Hf. specialize (Hf Hsync).
    destruct (dlite_storage_plugin_get name w1) as [out w2].
    destruct Hf as (Hout & Hn & Hi2 & Hh2).
    rewrite H1, H2. done.
  - rewrite (load_all_available _ _ _ (get_info_initialised _ _ H1)).
    cbn [log set_info trace storage_plugin_info]. count_events.
    rewrite H3. split; [reflexivity|]. split; [lia|].
    split; [reflexivity|]. intros api Hapi.
    by erewrite get_fast by (by apply get_info_initialised || exact Hapi).
  - intros p h Hh Hne w3. subst w3.
    rewrite (path_append_available _ _ _ H1). cbn [snd paths apis].
    apply (get_rescans_once name _
             {| paths := paths info ++ [p]; apis := ∅ |} h);
      [done | apply lookup_empty | done | simpl; by rewrite H2].
Qed.

(** *** Load-all *)

(** C9.  [dlite_storage_plugin_load_all] returns non-zero exactly when the
    registry is unavailable.  With a registry it returns 0 whatever the
    files do; the mapping it leaves is the one a rescan would produce if
    the files that cannot be loaded did not exist, and the driver name of
    every loadable file in a directory of the search path is registered. *)
Theorem dlite_storage_plugin_load_all_failures w :
  let '(r, _) := get_storage_plugin_info w in
  let '(ret, w') := dlite_storage_plugin_load_all w in
  (ret ≠ 0 ↔ r = None) ∧
  (∀ info, r = Some info →
     ret = 0 ∧
     storage_plugin_info w' = Some (plugin_load_all (fs w) info) ∧
     plugin_load_all (fs w) info =
       plugin_load_all (only_loadable (fs w)) info ∧
     ∀ d l f api,
       d ∈ paths info → fs w !! d = Some l → f ∈ l →
       lib_api f = Some api →
       is_Some (apis (plugin_load_all (fs w) info) !! plugin_name api)).
Proof.
  destruct (get_storage_plugin_info w) as [[info|] w1] eqn:Hg.
  - rewrite (load_all_available _ _ _ Hg).
    pose proof (get_info_post _ _ _ Hg) as (_ & _ & Hfs & _).
    split; [split; [intros H; by contradict H | discriminate]|].
    intros i [= <-]. rewrite <- Hfs. split; [reflexivity|].
    split; [reflexivity|]. split; [by rewrite plugin_load_all_skip|].
    intros d l f api. apply plugin_load_all_registers.
  - rewrite (load_all_unavailable _ _ Hg).
    split; [split; [reflexivity | discriminate]|]. intros i [=].
Qed.

(** C2, what the code does.  When the cached hash is not the digest of the
    search path, [dlite_storage_plugin_load_all] performs its rescan and
    returns 0, and the cached hash is what it was before the call: after
    this rescan it is still not the digest of the search path that was
    scanned. *)
Theorem dlite_storage_plugin_load_all_keeps_hash w info w1 :
  get_storage_plugin_info w = (Some info, w1) →
  pathshash (paths info) ≠ Some (storage_plugin_path_hash w) →
  let '(ret, w') := dlite_storage_plugin_load_all w in
  ret = 0 ∧
  rescans (trace w') = S (rescans (trace w)) ∧
  (paths <$> storage_plugin_info w') = Some (paths info) ∧
  storage_plugin_path_hash w' = storage_plugin_path_hash w ∧
  pathshash (paths info) ≠ Some (storage_plugin_path_hash w').
Proof.
  intros Hg Hstale. rewrite (load_all_available _ _ _ Hg).
  pose proof (get_info_post _ _ _ Hg) as (_ & Hh & _ & _ & Hr & _).
  cbn [log set_info trace storage_plugin_info storage_plugin_path_hash].
  count_events. rewrite Hh, Hr. repeat split; [lia | exact Hstale].
Qed.

(** *** The search path *)

Lemma clip_index_range (len : nat) (n : Z) :
  0 ≤ clip_index len n ≤ Z.of_nat len.
Proof. unfold clip_index. destruct (n <? 0); lia. Qed.

Lemma path_insert_available n p w info w1 :
  get_storage_plugin_info w = (Some info, w1) →
  dlite_storage_plugin_path_insert n p w =
    (clip_index (length (paths info)) n,
     set_info (Some (plugin_path_insert info p n).2) w1).
Proof.
  intros Hg. unfold dlite_storage_plugin_path_insert. by rewrite Hg.
Qed.

(** C8.  Insertion into a search path of length [L], the registry being
    available (created by this call if need be).  Index -1 appends at
    index [L]; index [L + 100] is clipped to [L]; index [-(L + 100)] is
    clipped to 0; and for every index the value returned is the position
    at which the path now stands, between 0 and [L], the other
    directories keeping their order around it. *)
Theorem dlite_storage_plugin_path_insert_clipped w info w1 p :
  get_storage_plugin_info w = (Some info, w1) →
  let L := length (paths info) in
  let after n :=
    ((dlite_storage_plugin_path_insert n p w).1,
     paths <$> storage_plugin_info (dlite_storage_plugin_path_insert n p w).2)
  in
  after (-1) = (Z.of_nat L, Some (paths info ++ [p])) ∧
  after (Z.of_nat L + 100) = (Z.of_nat L, Some (paths info ++ [p])) ∧
  after (- (Z.of_nat L + 100)) = (0, Some (p :: paths info)) ∧
  ∀ n, ∃ i : nat,
    (i ≤ L)%nat ∧
    after n =
      (Z.of_nat i, Some (take i (paths info) ++ p :: drop i (paths info))) ∧
    (take i (paths info) ++ p :: drop i (paths info)) !! i = Some p ∧
    (0 ≤ n ≤ Z.of_nat L → Z.of_nat i = n) ∧
    (- Z.of_nat L - 1 ≤ n < 0 → Z.of_nat i = Z.of_nat L + n + 1).
Proof.
  intros Hg L after.
  assert (Hafter : ∀ n, after n =
    (clip_index L n,
     Some (take (Z.to_nat (clip_index L n)) (paths info) ++
           p :: drop (Z.to_nat (clip_index L n)) (paths info)))).
  { intros n. unfold after. by rewrite (path_insert_available _ _ _ _ _ Hg). }
  assert (Hend : ∀ n, clip_index L n = Z.of_nat L →
            after n = (Z.of_nat L, Some (paths info ++ [p]))).
  { intros n Hn. rewrite Hafter, Hn, Nat2Z.id. subst L.
    by rewrite firstn_all, drop_all. }
  split; [apply Hend; unfold clip_index; simpl; lia|].
  split; [apply Hend; unfold clip_index;
          destruct (Z.of_nat L + 100 <? 0) eqn:E; lia|].
  split.
  { rewrite Hafter.
    assert (clip_index L (- (Z.of_nat L + 100)) = 0) as ->.
    { unfold clip_index. destruct (- (Z.of_nat L + 100) <? 0) eqn:E; lia. }
    reflexivity. }
  intros n. pose proof (clip_index_range L n) as Hrange.
  exists (Z.to_nat (clip_index L n)). split; [lia|].
  split; [by rewrite Hafter, Z2Nat.id by lia|]. split.
  { rewrite lookup_app_r by (rewrite length_take; lia).
    rewrite length_take. subst L.
    by replace (_ - _)%nat with 0%nat by lia. }
  rewrite Z2Nat.id by lia. unfold clip_index.
  split; intros Hn.
  - rewrite (proj2 (Z.ltb_ge _ _)) by lia. lia.
  - rewrite (proj2 (Z.ltb_lt _ _)) by lia. lia.
Qed.

(** C10.  When the registry cannot be constructed, insert, append and
    appendn all return 1.  The same value is the index they return for a
    successful insertion behind the first directory, so the caller cannot
    tell the two apart; an index that is returned with a registry is never
    negative, which -1 would be. *)
Theorem path_operations_error_collides w w1 n p k :
  get_storage_plugin_info w = (None, w1) →
  dlite_storage_plugin_path_insert n p w = (1, w1) ∧
  dlite_storage_plugin_path_append p w = (1, w1) ∧
  dlite_storage_plugin_path_appendn p k w = (1, w1) ∧
  (∀ v info d,
     storage_plugin_info v = Some info → paths info = [d] →
     let added q :=
       set_info (Some {| paths := [d; q]; apis := apis info |}) v in
     dlite_storage_plugin_path_insert 1 p v = (1, added p) ∧
     dlite_storage_plugin_path_append p v = (1, added p) ∧
     dlite_storage_plugin_path_appendn p k v = (1, added (String.substring 0 k p))) ∧
  (∀ v info m,
     storage_plugin_info v = Some info → 0 ≤ (dlite_storage_plugin_path_insert m p v).1 ∧
     0 ≤ (dlite_storage_plugin_path_append p v).1 ∧ 0 ≤ (dlite_storage_plugin_path_appendn p k v).1).
Proof.
  intros Hg.
  unfold dlite_storage_plugin_path_insert, dlite_storage_plugin_path_append,
    dlite_storage_plugin_path_appendn.
  rewrite Hg. split; [reflexivity|]. split; [reflexivity|].
  split; [reflexivity|]. split.
  - intros v info d Hi Hd. rewrite (get_info_initialised _ _ Hi).
    unfold plugin_path_appendn, plugin_path_append, plugin_path_insert.
    rewrite Hd. repeat split.
  - intros v info m Hi. rewrite (get_info_initialised _ _ Hi). simpl.
    pose proof (clip_index_range (length (paths info)) m). lia.
Qed.

End RegistryFacts.

(** ** Concrete runs *)

(** C5, as stated, fails.  In a new process whose search path has the two
    directories /opt/plugins and /plugins, resolving the unknown driver
    xml fails with a message that lists both directories and that does not
    name the environment variable. *)
Lemma not_found_message_without_hint :
  ∃ msg w',
    demo_get "xml" two_paths_world = (Exited 1 msg, w') ∧
    (paths <$> storage_plugin_info w') = Some ["/opt/plugins"; "/plugins"] ∧
    mentions "/opt/plugins" msg = true ∧
    mentions "/plugins" msg = true ∧
    mentions "DLITE_STORAGE_PLUGIN_DIRS" msg = false ∧
    mentions "variable" msg = false.
Proof. eexists _, _. split; [vm_compute; reflexivity|]. by vm_compute. Qed.

Lemma dlite_storage_plugin_get_message_witness :
  ∃ msg w',
    demo_get "xml" fresh_world = (Exited 1 msg, w') ∧
    1 = 1 ∧
    ∃ info, storage_plugin_info w' = Some info ∧
      msg = message_header "xml" +:+ message_lines (paths info) +:+
            (if decide (length (paths info) ≤ 1)%nat
             then message_hint (use_build_root w') else EmptyString) ∧
      mentions "xml" msg = true ∧
      (∀ p, p ∈ paths info →
         mentions (message_line p) msg = true ∧ mentions p msg = true) ∧
      ((length (paths info) ≤ 1)%nat →
         mentions (message_hint (use_build_root w')) msg = true) ∧
      (∀ b, mentions "DLITE_STORAGE_PLUGIN_DIRS" (message_hint b) = true ∧
            mentions "DLITE_ROOT" (message_hint b) = negb b).
Proof.
  eexists _, _. split; [vm_compute; reflexivity|].
  apply (dlite_storage_plugin_get_message (sub := demo) "xml" fresh_world).
  vm_compute; reflexivity.
Defined.

Lemma dlite_storage_plugin_get_resolution_order_witness :
  ∃ info w1,
    demo_get_info fresh_world = (Some info, w1) ∧
    let '(out, w') := demo_get "hdf5" fresh_world in
    match plugin_get_api info "hdf5" with
    | Some api =>
        out = Returned (Some api) ∧ w' = log (EvGetApi "hdf5") w1 ∧
        (is_Some (storage_plugin_info fresh_world) → w1 = fresh_world)
    | None =>
        let changed :=
          ∃ h, demo_hash (paths info) = Some h ∧
               h ≠ storage_plugin_path_hash w1 in
        (changed ↔ rescans (trace w') = S (rescans (trace w1))) ∧
        (∀ h, demo_hash (paths info) = Some h →
           h ≠ storage_plugin_path_hash w1 →
           let info' := plugin_load_all (fs w1) info in
           storage_plugin_info w' = Some info' ∧
           storage_plugin_path_hash w' = h ∧
           match plugin_get_api info' "hdf5" with
           | Some api =>
               out = Returned (Some api) ∧
               trace w' = trace w1 ++
                 [EvGetApi "hdf5"; EvPathsHash; EvLoadAll; EvGetApi "hdf5"]
           | None =>
               ∃ msg, out = Exited 1 msg ∧
               trace w' = trace w1 ++
                 [EvGetApi "hdf5"; EvPathsHash; EvLoadAll; EvGetApi "hdf5";
                  EvErrx 1 msg]
           end) ∧
        (¬ changed →
           storage_plugin_info w' = Some info ∧
           storage_plugin_path_hash w' = storage_plugin_path_hash w1 ∧
           ∃ msg, out = Exited 1 msg ∧
           trace w' = trace w1 ++
             [EvGetApi "hdf5"; EvPathsHash; EvErrx 1 msg])
    end ∧
    (∀ api, out = Returned (Some api) →
       demo_get "hdf5" w' = (Returned (Some api), log (EvGetApi "hdf5") w')).
Proof.
  eexists _, _. split; [vm_compute; reflexivity|].
  apply (dlite_storage_plugin_get_resolution_order (sub := demo)
           "hdf5" fresh_world).
  vm_compute; reflexivity.
Defined.

Lemma dlite_storage_plugin_load_all_keeps_hash_witness :
  ∃ info w1,
    demo_get_info fresh_world = (Some info, w1) ∧
    demo_hash (paths info) ≠ Some (storage_plugin_path_hash fresh_world) ∧
    let '(ret, w') := demo_load_all fresh_world in
    ret = 0 ∧
    rescans (trace w') = S (rescans (trace fresh_world)) ∧
    (paths <$> storage_plugin_info w') = Some (paths info) ∧
    storage_plugin_path_hash w' = storage_plugin_path_hash fresh_world ∧
    demo_hash (paths info) ≠ Some (storage_plugin_path_hash w').
Proof.
  eexists _, _. split; [vm_compute; reflexivity|].
  split; [by vm_compute|].
  eapply (dlite_storage_plugin_load_all_keeps_hash (sub := demo) fresh_world);
    [vm_compute; reflexivity | by vm_compute].
Defined.

Lemma dlite_storage_plugin_unload_all_keeps_hash_witness :
  ∃ info,
    storage_plugin_info loaded_world = Some info ∧
    let w1 := demo_unload_all loaded_world in
    storage_plugin_info w1 = Some {| paths := paths info; apis := ∅ |} ∧
    storage_plugin_path_hash w1 = storage_plugin_path_hash loaded_world ∧
    trace w1 = trace loaded_world ++
                 (EvUnload <$> map fst (map_to_list (apis info))) ∧
    (∀ n, is_Some (apis info !! n) ↔
          n ∈ map fst (map_to_list (apis info))) ∧
    (demo_hash (paths info) = Some (storage_plugin_path_hash loaded_world) →
       let '(out, w2) := demo_get "hdf5" w1 in
       (∃ msg, out = Exited 1 msg) ∧
       rescans (trace w2) = rescans (trace w1) ∧
       storage_plugin_info w2 = storage_plugin_info w1 ∧
       storage_plugin_path_hash w2 = storage_plugin_path_hash w1) ∧
    (let '(ret, w3) := demo_load_all w1 in
     ret = 0 ∧ rescans (trace w3) = S (rescans (trace w1)) ∧
     storage_plugin_info w3 =
       Some (plugin_load_all (fs loaded_world)
               {| paths := paths info; apis := ∅ |}) ∧
     ∀ api,
       apis (plugin_load_all (fs loaded_world)
               {| paths := paths info; apis := ∅ |}) !! "hdf5" = Some api →
       (demo_get "hdf5" w3).1 = Returned (Some api)) ∧
    (∀ p h,
       demo_hash (paths info ++ [p]) = Some h →
       h ≠ storage_plugin_path_hash loaded_world →
       let w3 := (demo_path_append p w1).2 in
       rescans (trace (demo_get "hdf5" w3).2) = S (rescans (trace w3))).
Proof.
  eexists. split; [reflexivity|].
  apply (dlite_storage_plugin_unload_all_keeps_hash (sub := demo) loaded_world _ "hdf5").
  reflexivity.
Defined.

Lemma dlite_storage_plugin_path_insert_clipped_witness :
  ∃ info w1,
    demo_get_info two_paths_world = (Some info, w1) ∧
    let L := length (paths info) in
    let after n :=
      ((demo_path_insert n "/new" two_paths_world).1,
       paths <$> storage_plugin_info
                   (demo_path_insert n "/new" two_paths_world).2) in
    after (-1) = (Z.of_nat L, Some (paths info ++ ["/new"])) ∧
    after (Z.of_nat L + 100) = (Z.of_nat L, Some (paths info ++ ["/new"])) ∧
    after (- (Z.of_nat L + 100)) = (0, Some ("/new" :: paths info)) ∧
    ∀ n, ∃ i : nat,
      (i ≤ L)%nat ∧
      after n = (Z.of_nat i,
                 Some (take i (paths info) ++ "/new" :: drop i (paths info))) ∧
      (take i (paths info) ++ "/new" :: drop i (paths info)) !! i
        = Some "/new" ∧
      (0 ≤ n ≤ Z.of_nat L → Z.of_nat i = n) ∧
      (- Z.of_nat L - 1 ≤ n < 0 → Z.of_nat i = Z.of_nat L + n + 1).
Proof.
  eexists _, _. split; [vm_compute; reflexivity|].
  eapply (dlite_storage_plugin_path_insert_clipped (sub := demo)
            two_paths_world).
  vm_compute; reflexivity.
Defined.

Lemma path_operations_error_collides_witness :
  ∃ w1,
    demo_get_info no_memory_world = (None, w1) ∧
    demo_path_insert 0 "/new" no_memory_world = (1, w1) ∧
    demo_path_append "/new" no_memory_world = (1, w1) ∧
    demo_path_appendn "/new" 4 no_memory_world = (1, w1) ∧
    demo_path_insert 1 "/new" loaded_world =
      (1, set_info (Some {| paths := ["/plugins"; "/new"];
                            apis := default ∅
                              (apis <$> storage_plugin_info loaded_world) |})
            loaded_world).
Proof.
  eexists. split; [vm_compute; reflexivity|].
  destruct (path_operations_error_collides (sub := demo)
              no_memory_world _ 0 "/new" 4%nat eq_refl)
    as (Hins & Happ & Happn & Hok & _).
  split; [exact Hins|]. split; [exact Happ|]. split; [exact Happn|].
  destruct (Hok loaded_world _ "/plugins" eq_refl eq_refl) as (H1 & _).
  exact H1.
Defined.

Lemma dlite_storage_plugin_get_hash_gated_witness :
  let w1 := (demo_get "xml" fresh_world).2 in
  let w2 := (demo_get "yaml" w1).2 in
  let w3 := (demo_path_append "/more" w1).2 in
  rescans (trace w1) = 1%nat ∧
  rescans (trace w2) = rescans (trace w1) ∧
  rescans (trace (demo_get "yaml" w3).2) = S (rescans (trace w3)).
Proof.
  intros w1 w2 w3.
  destruct (dlite_storage_plugin_get_hash_gated (sub := demo)
              "xml" "yaml" fresh_world) as (_ & Hsecond & _ & Hafter).
  split; [by vm_compute|]. split.
  - eapply Hsecond; vm_compute; reflexivity.
  - eapply Hafter; [vm_compute; reflexivity..|by vm_compute].
Defined.


Lemma dlite_storage_plugin_load_all_failures_witness :
  let '(ret, w') := demo_load_all fresh_world in
  ret = 0 ∧
  (∃ info, storage_plugin_info w' = Some info ∧
           is_Some (apis info !! "hdf5") ∧ is_Some (apis info !! "json")) ∧
  (demo_load_all no_memory_world).1 ≠ 0.
Proof.
  pose proof (dlite_storage_plugin_load_all_failures (sub := demo)
                fresh_world) as T.
  pose proof (dlite_storage_plugin_load_all_failures (sub := demo)
                no_memory_world) as U.
  fold demo_load_all demo_get_info in T, U.
  destruct (demo_get_info fresh_world) as [r w1] eqn:G.
  destruct (demo_load_all fresh_world) as [ret w'].
  destruct T as (_ & T).
  vm_compute in G. injection G as <- _.
  destruct (T _ eq_refl) as (-> & Hi & _ & Hreg).
  split; [reflexivity|]. split.
  - eexists. split; [exact Hi|]. split.
    + eapply (Hreg "/plugins" _ _ hdf5_api);
        [by left | reflexivity | by right; left | reflexivity].
    + eapply (Hreg "/plugins" _ _ json_api);
        [by left | reflexivity | by right; right; left | reflexivity].
  - destruct (demo_get_info no_memory_world) as [r0 w0] eqn:G0.
    destruct (demo_load_all no_memory_world) as [ret0 w0'].
    apply (proj1 U). vm_compute in G0. by injection G0 as <- _.
Defined.

(** ** The whole interface: what a call can and cannot change *)

Lemma events_unload_only (names : list string) :
  rescans (EvUnload <$> names) = 0%nat ∧ atexits (EvUnload <$> names) = 0%nat.
Proof.
  induction names as [|n names [IH1 IH2]]; [done|].
  change (EvUnload <$> n :: names) with ([EvUnload n] ++ (EvUnload <$> names)).
  rewrite rescans_app, atexits_app, IH1, IH2. done.
Qed.

(** *** What a rescan registers *)

Lemma load_files_lookup (l : list SharedLib)
  (m : gmap string DLiteStoragePlugin) (k : string) :
  foldl load_file m l !! k =
  match last_named k l with Some api => Some api | None => m !! k end.
Proof.
  revert m. induction l as [|f l IH]; intros m; simpl; [done|].
  rewrite IH. destruct (last_named k l); [done|].
  unfold load_file. destruct (lib_api f) as [api|]; [|done].
  rewrite lookup_insert. by destruct (decide (plugin_name api = k)).
Qed.

Lemma last_named_name (k : string) (l : list SharedLib) api :
  last_named k l = Some api → plugin_name api = k.
Proof.
  induction l as [|f l IH]; simpl; [discriminate|].
  destruct (last_named k l); [by intros [= <-]; apply IH|].
  destruct (lib_api f) as [a|]; [|discriminate].
  destruct (decide (plugin_name a = k)); [by intros [= <-] | discriminate].
Qed.

Lemma last_named_elem (l : list SharedLib) f api :
  f ∈ l → lib_api f = Some api → is_Some (last_named (plugin_name api) l).
Proof.
  intros Hf Ha. induction Hf as [f l|f g l _ IH]; simpl.
  - destruct (last_named _ l); [eauto|]. rewrite Ha.
    rewrite decide_True by done. eauto.
  - destruct (IH Ha) as [a ->]. eauto.
Qed.

Lemma load_dirs_files files (ps : list string)
  (m : gmap string DLiteStoragePlugin) :
  foldl (load_dir files) m ps = foldl load_file m (all_files files ps).
Proof.
  revert m. induction ps as [|d ps IH]; intros m; [done|].
  unfold all_files. simpl. rewrite foldl_app. apply IH.
Qed.

(** After a rescan the entry of a name is the descriptor of the last file
    in scan order that reports the name, and the entry it had before when
    no file reports it. *)
Lemma plugin_load_all_lookup files info (k : string) :
  apis (plugin_load_all files info) !! k =
  match last_named k (all_files files (paths info)) with
  | Some api => Some api
  | None => apis info !! k
  end.
Proof. simpl. by rewrite load_dirs_files, load_files_lookup. Qed.

(** Reads the fields of a world that was built by the setters. *)
Ltac world_fields :=
  cbn [fst snd errx log set_hash set_info set_mem trace mem fs
       storage_plugin_info storage_plugin_path_hash use_build_root
       env_paths dlite_root].

Section InterfaceFacts.

Context {sub : Substrate}.

(** A call made before the registry exists behaves as the same call made
    right after the registry has been created. *)
Lemma step_after_init op w info w1 :
  get_storage_plugin_info w = (Some info, w1) → step op w = step op w1.
Proof.
  intros Hg.
  pose proof (get_info_initialised _ _ (get_info_registry _ _ _ Hg)) as Hg1.
  destruct op; unfold step, dlite_storage_plugin_get,
    dlite_storage_plugin_load_all, dlite_storage_plugin_unload_all,
    dlite_storage_plugin_unload, dlite_storage_plugin_paths,
    dlite_storage_plugin_path_insert, dlite_storage_plugin_path_append,
    dlite_storage_plugin_path_appendn, dlite_storage_plugin_path_remove;
    by rewrite Hg, Hg1.
Qed.

(** Without a registry every call leaves the world as the failed attempt
    to create the registry left it. *)
Lemma step_unavailable op w w1 :
  get_storage_plugin_info w = (None, w1) → (step op w).2 = w1.
Proof.
  intros Hg.
  destruct op; unfold step, dlite_storage_plugin_get,
    dlite_storage_plugin_load_all, dlite_storage_plugin_unload_all,
    dlite_storage_plugin_unload, dlite_storage_plugin_paths,
    dlite_storage_plugin_path_insert, dlite_storage_plugin_path_append,
    dlite_storage_plugin_path_appendn, dlite_storage_plugin_path_remove;
    by rewrite Hg.
Qed.

(** What one call does to a world that has a registry: the registry it
    leaves, the cached hash, and the number of rescans it performs.  No
    call registers the teardown hook. *)
Lemma step_effect op w info :
  storage_plugin_info w = Some info →
  let w' := (step op w).2 in
  ∃ info' (k : nat),
    storage_plugin_info w' = Some info' ∧
    atexits (trace w') = atexits (trace w) ∧
    rescans (trace w') = (rescans (trace w) + k)%nat ∧
    match op with
    | OpGet name =>
        (info' = info ∧ k = 0%nat ∧
         storage_plugin_path_hash w' = storage_plugin_path_hash w) ∨
        (info' = plugin_load_all (fs w) info ∧ k = 1%nat ∧
         apis info !! name = None ∧
         pathshash (paths info) = Some (storage_plugin_path_hash w') ∧
         storage_plugin_path_hash w' ≠ storage_plugin_path_hash w)
    | OpLoadAll =>
        info' = plugin_load_all (fs w) info ∧ k = 1%nat ∧
        storage_plugin_path_hash w' = storage_plugin_path_hash w
    | OpUnloadAll =>
        info' = {| paths := paths info; apis := ∅ |} ∧ k = 0%nat ∧
        storage_plugin_path_hash w' = storage_plugin_path_hash w
    | OpUnload name =>
        info' = {| paths := paths info; apis := delete name (apis info) |} ∧
        k = 0%nat ∧
        storage_plugin_path_hash w' = storage_plugin_path_hash w
    | OpPaths =>
        info' = info ∧ k = 0%nat ∧
        storage_plugin_path_hash w' = storage_plugin_path_hash w
    | OpPathInsert n path =>
        info' = (plugin_path_insert info path n).2 ∧ k = 0%nat ∧
        storage_plugin_path_hash w' = storage_plugin_path_hash w
    | OpPathAppend path =>
        info' = (plugin_path_append info path).2 ∧ k = 0%nat ∧
        storage_plugin_path_hash w' = storage_plugin_path_hash w
    | OpPathAppendn path n =>
        info' = (plugin_path_appendn info path n).2 ∧ k = 0%nat ∧
        storage_plugin_path_hash w' = storage_plugin_path_hash w
    | OpPathRemove path =>
        info' = (plugin_path_remove info path).2 ∧ k = 0%nat ∧
        storage_plugin_path_hash w' = storage_plugin_path_hash w
    end.
Proof.
  intros Hi. pose proof (get_info_initialised _ _ Hi) as Hg.
  destruct op as [name| | |name| |n path|path|path n|path]; cbn [step].
  - destruct (get_cases name w) as
      [(w1 & Hg' & He)|[(i & w1 & api & Hg' & Hl & He)|
      [(i & w1 & h & Hg' & Hl & Hh & Hne & He)|
       (i & w1 & Hg' & Hl & Hh & He)]]];
      rewrite Hg in Hg'; simplify_eq; rewrite He; clear He.
    + exists i, 0%nat. world_fields. count_events.
      split; [done|]. split; [lia|]. split; [lia|]. by left.
    + cbv zeta.
      destruct (apis (plugin_load_all (fs w1) i) !! name);
        exists (plugin_load_all (fs w1) i), 1%nat;
        world_fields; count_events;
        (split; [done|]); (split; [lia|]); (split; [lia|]); right; done.
    + exists i, 0%nat. world_fields. count_events.
      split; [done|]. split; [lia|]. split; [lia|]. by left.
  - rewrite (load_all_available _ _ _ Hg). eexists _, 1%nat. world_fields.
    count_events. repeat split; lia.
  - destruct (unload_all_available _ _ Hi) as (H1 & H2 & _ & H4).
    eexists _, 0%nat. world_fields. rewrite H1, H2, H4. count_events.
    destruct (events_unload_only (map fst (map_to_list (apis info))))
      as [-> ->].
    repeat split; lia.
  - unfold dlite_storage_plugin_unload. rewrite Hg.
    pose proof (plugin_unload_registry info name) as Hu.
    destruct (plugin_unload info name) as [r i']. simpl in Hu. subst i'.
    eexists _, 0%nat. world_fields. count_events. repeat split; lia.
  - unfold dlite_storage_plugin_paths. rewrite Hg.
    exists info, 0%nat. world_fields. repeat split; try done; lia.
  - unfold dlite_storage_plugin_path_insert. rewrite Hg.
    destruct (plugin_path_insert info path n) as [r i'] eqn:E.
    exists i', 0%nat. world_fields. repeat split; lia.
  - unfold dlite_storage_plugin_path_append. rewrite Hg.
    destruct (plugin_path_append info path) as [r i'] eqn:E.
    exists i', 0%nat. world_fields. repeat split; lia.
  - unfold dlite_storage_plugin_path_appendn. rewrite Hg.
    destruct (plugin_path_appendn info path n) as [r i'] eqn:E.
    exists i', 0%nat. world_fields. repeat split; lia.
  - unfold dlite_storage_plugin_path_remove. rewrite Hg.
    destruct (plugin_path_remove info path) as [r i'] eqn:E.
    exists i', 0%nat. world_fields. repeat split; lia.
Qed.

(** What one call does, whether or not the registry exists before it: the
    creation of the registry is the only part that can register the hook,
    and it does not rescan or touch the cached hash. *)
Lemma step_frame op w :
  let w' := (step op w).2 in
  (storage_plugin_info w' = None →
     storage_plugin_path_hash w' = storage_plugin_path_hash w ∧
     rescans (trace w') = rescans (trace w)) ∧
  ∀ info', storage_plugin_info w' = Some info' →
    ∃ info w1,
      get_storage_plugin_info w = (Some info, w1) ∧
      storage_plugin_path_hash w1 = storage_plugin_path_hash w ∧
      rescans (trace w1) = rescans (trace w) ∧
      fs w1 = fs w ∧
      (step op w).2 = (step op w1).2 ∧
      storage_plugin_info w1 = Some info.
Proof.
  intros w'. subst w'.
  destruct (get_storage_plugin_info w) as [[info|] w1] eqn:Hg;
    pose proof (get_info_post _ _ _ Hg) as (Hr & Hh & Hfs & _ & Hn & _).
  - rewrite (step_after_init _ _ _ _ Hg).
    destruct (step_effect op w1 info Hr) as (i' & k & Hi' & _).
    split; [intros Hnone; congruence|].
    intros info' _. exists info, w1. done.
  - rewrite (step_unavailable _ _ _ Hg).
    split; [done|]. intros info' Hi'. congruence.
Qed.

Lemma step_hook op w (k : nat) :
  (storage_plugin_info w = None ∧ atexits (trace w) = k) ∨
  (is_Some (storage_plugin_info w) ∧ atexits (trace w) = S k) →
  (storage_plugin_info (step op w).2 = None ∧
   atexits (trace (step op w).2) = k) ∨
  (is_Some (storage_plugin_info (step op w).2) ∧
   atexits (trace (step op w).2) = S k).
Proof.
  intros H. pose proof (get_info_hook w k H) as Hk.
  destruct (get_storage_plugin_info w) as [[info|] w1] eqn:Hg;
    pose proof (get_info_registry _ _ _ Hg) as Hr; simpl in Hk;
    rewrite Hr in Hk.
  - rewrite (step_after_init _ _ _ _ Hg).
    destruct (step_effect op w1 info Hr) as (i' & n & Hi' & Ha & _).
    right. split; [eauto | rewrite Ha; lia].
  - rewrite (step_unavailable _ _ _ Hg). left. split; [done | lia].
Qed.

(** X1.  Whatever calls of the interface a client makes, and in whatever
    order, the teardown hook is registered at most once: starting without
    a registry, the number of registrations has grown by one if the
    registry exists at the end and has not grown otherwise. *)
Theorem teardown_hook_registered_once (prog : list Op) (w : World) :
  storage_plugin_info w = None →
  atexits (trace (run prog w)) =
    (atexits (trace w) +
     if storage_plugin_info (run prog w) is Some _ then 1 else 0)%nat.
Proof.
  intros Hnone.
  assert (Hinv : ∀ prog v,
    (storage_plugin_info v = None ∧ atexits (trace v) = atexits (trace w)) ∨
    (is_Some (storage_plugin_info v) ∧
     atexits (trace v) = S (atexits (trace w))) →
    (storage_plugin_info (run prog v) = None ∧
     atexits (trace (run prog v)) = atexits (trace w)) ∨
    (is_Some (storage_plugin_info (run prog v)) ∧
     atexits (trace (run prog v)) = S (atexits (trace w)))).
  { clear prog. induction prog as [|op rest IH]; intros v Hv; [exact Hv|].
    simpl. pose proof (step_hook op v _ Hv) as Hs.
    destruct (step op v) as [[] v']; simpl in Hs; [by apply IH | exact Hs]. }
  destruct (Hinv prog w) as [[-> ->]|[[i ->] ->]]; [by left | lia..].
Qed.

(** X2.  The cached hash is written by nothing but a rescan inside
    [dlite_storage_plugin_get]: a call after which the cached hash differs
    is a get that rescanned, and the hash it leaves is the digest of the
    search path; every program without a get leaves the cached hash as it
    was. *)
Theorem path_hash_written_only_by_get (op : Op) (w : World) :
  let w' := (step op w).2 in
  (storage_plugin_path_hash w' ≠ storage_plugin_path_hash w →
   ∃ name info',
     op = OpGet name ∧
     rescans (trace w') = S (rescans (trace w)) ∧
     storage_plugin_info w' = Some info' ∧
     pathshash (paths info') = Some (storage_plugin_path_hash w')) ∧
  (∀ prog, Forall (λ op, ∀ name, op ≠ OpGet name) prog →
     storage_plugin_path_hash (run prog w) = storage_plugin_path_hash w).
Proof.
  assert (Hone : ∀ op v,
    storage_plugin_path_hash (step op v).2 ≠ storage_plugin_path_hash v →
    ∃ name info',
      op = OpGet name ∧
      rescans (trace (step op v).2) = S (rescans (trace v)) ∧
      storage_plugin_info (step op v).2 = Some info' ∧
      pathshash (paths info') =
        Some (storage_plugin_path_hash (step op v).2)).
  { clear op w. intros op v Hdiff.
    destruct (step_frame op v) as [Hnone Hsome].
    destruct (storage_plugin_info (step op v).2) as [info'|] eqn:Hi';
      [|by destruct (Hnone eq_refl)].
    destruct (Hsome info' eq_refl)
      as (info & w1 & Hg & Hh & Hn & _ & He & Hr).
    rewrite He in Hdiff, Hi' |- *.
    destruct (step_effect op w1 info Hr) as (i' & k & Hi'' & _ & Hk & Hop).
    rewrite Hi'' in Hi'. injection Hi' as <-.
    destruct op; try (destruct Hop as (_ & _ & Hsame); congruence).
    destruct Hop as [(_ & _ & Hsame)|(-> & -> & _ & Hdig & _)];
      [congruence|].
    exists name, (plugin_load_all (fs w1) info).
    repeat split; [lia | done]. }
  split; [apply Hone|].
  intros prog. revert w. induction prog as [|o rest IH]; intros v Hall; [done|].
  apply Forall_cons in Hall as [Ho Hrest]. simpl.
  destruct (decide (storage_plugin_path_hash (step o v).2 =
                    storage_plugin_path_hash v)) as [Heq|Hne].
  - destruct (step o v) as [[] v']; simpl in Heq; [|done].
    by rewrite (IH v' Hrest).
  - destruct (Hone o v Hne) as (name & _ & -> & _). by destruct (Ho name).
Qed.

(** X3.  Rescans come from [dlite_storage_plugin_get] and
    [dlite_storage_plugin_load_all] alone.  Unloading, reading the search
    path and changing the search path never rescan; load-all rescans
    exactly once when the registry is available and not at all otherwise;
    no call rescans more than once; and a program made of the other calls
    performs no rescan however long it is. *)
Theorem rescans_only_by_get_and_load_all (op : Op) (w : World) :
  let w' := (step op w).2 in
  (may_rescan op = false → rescans (trace w') = rescans (trace w)) ∧
  (op = OpLoadAll →
     rescans (trace w') =
       (rescans (trace w) +
        if (get_storage_plugin_info w).1 is Some _ then 1 else 0)%nat) ∧
  (rescans (trace w) ≤ rescans (trace w') ≤ S (rescans (trace w)))%nat ∧
  (∀ prog, Forall (λ op, may_rescan op = false) prog →
     rescans (trace (run prog w)) = rescans (trace w)).
Proof.
  assert (Hone : ∀ op v,
    ∃ k : nat,
      rescans (trace (step op v).2) = (rescans (trace v) + k)%nat ∧
      (k ≤ 1)%nat ∧
      (may_rescan op = false → k = 0%nat) ∧
      (op = OpLoadAll →
         k = if (get_storage_plugin_info v).1 is Some _ then 1%nat
             else 0%nat)).
  { clear op w. intros op v.
    destruct (get_storage_plugin_info v) as [[info|] w1] eqn:Hg;
      pose proof (get_info_post _ _ _ Hg) as (Hr & _ & _ & _ & Hn & _).
    - rewrite (step_after_init _ _ _ _ Hg).
      destruct (step_effect op w1 info Hr) as (i' & k & _ & _ & Hk & Hop).
      exists k. rewrite Hk, Hn. split; [done|].
      destruct op; simpl;
        try (destruct Hop as (_ & -> & _); repeat split; (lia || done)).
      destruct Hop as [(_ & -> & _)|(_ & -> & _)];
        repeat split; (lia || done).
    - rewrite (step_unavailable _ _ _ Hg). exists 0%nat. rewrite Hn.
      repeat split; (lia || done). }
  destruct (Hone op w) as (k & Hk & Hle & Hno & Hload).
  split; [intros Hm; rewrite Hk, (Hno Hm); lia|].
  split; [intros Ho; rewrite Hk, (Hload Ho); lia|].
  split; [lia|].
  intros prog. clear k Hk Hle Hno Hload. revert w.
  induction prog as [|o rest IH]; intros v Hall; [done|].
  apply Forall_cons in Hall as [Ho Hrest]. simpl.
  destruct (Hone o v) as (k & Hk & _ & Hno & _).
  rewrite (Hno Ho), Nat.add_0_r in Hk.
  destruct (step o v) as [[] v']; simpl in Hk; [|done].
  by rewrite (IH v' Hrest).
Qed.

(** X4.  The search path is changed by the path calls alone.  With a
    registry, a get, a load-all, an unload, an unload-all or a reading of
    the search path leaves the search path exactly as it was, and so does
    every program made of such calls. *)
Theorem search_path_changed_only_by_path_calls op w info :
  storage_plugin_info w = Some info →
  (mutates_path op = false → search_path (step op w).2 = Some (paths info)) ∧
  (∀ prog, Forall (λ op, mutates_path op = false) prog →
     search_path (run prog w) = Some (paths info)).
Proof.
  assert (Hone : ∀ op v i,
    storage_plugin_info v = Some i → mutates_path op = false →
    search_path (step op v).2 = Some (paths i)).
  { clear. intros op v i Hi Hm. unfold search_path.
    destruct (step_effect op v i Hi) as (i' & k & -> & _ & _ & Hop).
    destruct op; try discriminate; simpl;
      try (destruct Hop as (-> & _); done).
    destruct Hop as [(-> & _)|(-> & _)]; done. }
  intros Hi. split; [by apply Hone|].
  intros prog. revert w info Hi.
  induction prog as [|o rest IH]; intros v i Hi Hall; simpl.
  - unfold search_path. by rewrite Hi.
  - apply Forall_cons in Hall as [Ho Hrest].
    pose proof (Hone o v i Hi Ho) as Hs.
    destruct (step o v) as [[] v'] eqn:E; simpl in Hs; [|exact Hs].
    unfold search_path in Hs.
    destruct (storage_plugin_info v') as [i'|] eqn:Hi'; [|discriminate].
    injection Hs as Hp. rewrite <- Hp. by apply IH.
Qed.

(** X5.  [dlite_storage_plugin_unload] with a registry.  It returns 0
    exactly when the name was registered, removes that entry and no other,
    leaves the registry as it was for a name that is not registered, and
    touches neither the search path nor the cached hash and does not
    rescan.  When the cached hash is the digest of the search path,
    resolving the unloaded name right afterwards fails without a rescan:
    the plugin is not loaded again. *)
Theorem dlite_storage_plugin_unload_then_get name w info :
  storage_plugin_info w = Some info →
  let '(r, w1) := dlite_storage_plugin_unload name w in
  (r = 0 ↔ is_Some (apis info !! name)) ∧
  storage_plugin_info w1 =
    Some {| paths := paths info; apis := delete name (apis info) |} ∧
  (apis info !! name = None → storage_plugin_info w1 = Some info) ∧
  storage_plugin_path_hash w1 = storage_plugin_path_hash w ∧
  rescans (trace w1) = rescans (trace w) ∧
  (pathshash (paths info) = Some (storage_plugin_path_hash w) →
     let '(out, w2) := dlite_storage_plugin_get name w1 in
     (∃ msg, out = Exited 1 msg) ∧
     rescans (trace w2) = rescans (trace w1) ∧
     storage_plugin_info w2 = storage_plugin_info w1).
Proof.
  intros Hi. unfold dlite_storage_plugin_unload.
  rewrite (get_info_initialised _ _ Hi).
  pose proof (plugin_unload_registry info name) as Hu.
  assert (Hr : (plugin_unload info name).1 = 0 ↔ is_Some (apis info !! name)).
  { unfold plugin_unload. destruct (apis info !! name); simpl.
    - split; eauto.
    - split; [discriminate|]. by intros [? ?]. }
  destruct (plugin_unload info name) as [r i']. simpl in Hu, Hr. subst i'.
  world_fields. count_events.
  split; [exact Hr|]. split; [done|]. split.
  { intros Hn. rewrite delete_id by done. by destruct info. }
  split; [done|]. split; [lia|]. intros Hsync.
  pose proof (get_in_sync_fails name
    (log (EvUnload name) (set_info
       (Some {| paths := paths info; apis := delete name (apis info) |}) w))
    _ eq_refl (lookup_delete_eq _ _) Hsync) as Hf.
  destruct (dlite_storage_plugin_get name _) as [out w2].
  destruct Hf as (Hout & Hn & Hi2 & _).
  split; [done|]. split; [|done]. rewrite Hn. world_fields. by count_events.
Qed.

(** X7.  After [dlite_storage_plugin_load_all], the driver of every file on
    the search path that can be loaded is resolved by the lookup alone,
    with no further rescan.  The descriptor returned reports the name
    asked for and comes from the last file in scan order that reports that
    name. *)
Theorem load_all_then_get_resolves w info w1 d l f api :
  get_storage_plugin_info w = (Some info, w1) →
  d ∈ paths info → fs w !! d = Some l → f ∈ l → lib_api f = Some api →
  let w2 := (dlite_storage_plugin_load_all w).2 in
  ∃ api',
    dlite_storage_plugin_get (plugin_name api) w2 =
      (Returned (Some api'), log (EvGetApi (plugin_name api)) w2) ∧
    plugin_name api' = plugin_name api ∧
    last_named (plugin_name api) (all_files (fs w) (paths info)) = Some api'.
Proof.
  intros Hg Hd Hl Hf Ha w2. subst w2. rewrite (load_all_available _ _ _ Hg).
  pose proof (get_info_post _ _ _ Hg) as (_ & _ & Hfs & _).
  world_fields. rewrite Hfs.
  assert (Hfile : f ∈ all_files (fs w) (paths info)).
  { unfold all_files. apply list_elem_of_bind. exists d.
    rewrite Hl. done. }
  destruct (last_named_elem _ _ _ Hfile Ha) as [api' Hlast].
  exists api'. split; [|split; [by eapply last_named_name | done]].
  apply (get_fast _ _ (plugin_load_all (fs w) info));
    [by apply get_info_initialised|].
  by rewrite plugin_load_all_lookup, Hlast.
Qed.

(** X9.  A failed creation of the registry is not remembered.  When the
    allocation fails, [dlite_storage_plugin_path_append] returns 1, stores
    nothing and leaves no registry behind; the next call tries again, and
    when that allocation succeeds it works on a new registry whose search
    path is the seeded one: the path of the failed call is not in it
    unless the second call adds it. *)
Theorem failed_allocation_is_retried path1 path2 w m :
  storage_plugin_info w = None → mem w = false :: true :: m →
  let '(r1, w1) := dlite_storage_plugin_path_append path1 w in
  let '(r2, w2) := dlite_storage_plugin_path_append path2 w1 in
  r1 = 1 ∧ search_path w1 = None ∧
  r2 = Z.of_nat (length (seeded_paths w)) ∧
  search_path w2 = Some (seeded_paths w ++ [path2]) ∧
  atexits (trace w2) = S (atexits (trace w)).
Proof.
  intros Hi Hm.
  assert (Hfail : next_alloc w = false) by (unfold next_alloc; by rewrite Hm).
  set (w1 := set_info None (log (EvInfoCreate false)
                              (set_mem (tail (mem w)) w))).
  assert (Hi1 : storage_plugin_info w1 = None) by done.
  assert (Hok : next_alloc w1 = true).
  { unfold next_alloc, w1. simpl. by rewrite Hm. }
  assert (H1 : dlite_storage_plugin_path_append path1 w = (1, w1)).
  { unfold dlite_storage_plugin_path_append.
    by rewrite (get_info_fail _ Hi Hfail). }
  rewrite H1. unfold dlite_storage_plugin_path_append.
  rewrite (get_info_create _ Hi1 Hok). unfold plugin_path_append.
  unfold search_path, w1. world_fields. count_events.
  repeat split; lia.
Qed.

(** X10.  The teardown hook [storage_plugin_info_free] leaves no registry
    and may run again without effect, and it does not reset the cached
    hash.  A call made after it creates a new, empty registry with the
    seeded search path and registers the hook once more; and when the
    cached hash is the digest of that seeded search path, resolving a name
    then fails without a rescan although nothing is registered any
    more. *)
Theorem storage_plugin_info_free_then_reuse w name :
  let w0 := storage_plugin_info_free w in
  storage_plugin_info w0 = None ∧
  storage_plugin_info_free w0 = w0 ∧
  storage_plugin_path_hash w0 = storage_plugin_path_hash w ∧
  (next_alloc w = true →
     let '(r, w1) := get_storage_plugin_info w0 in
     r = Some {| paths := seeded_paths w; apis := ∅ |} ∧
     atexits (trace w1) = S (atexits (trace w))) ∧
  (next_alloc w = true →
   pathshash (seeded_paths w) = Some (storage_plugin_path_hash w) →
     let '(out, w2) := dlite_storage_plugin_get name w0 in
     (∃ msg, out = Exited 1 msg) ∧
     rescans (trace w2) = rescans (trace w) ∧
     storage_plugin_info w2 = Some {| paths := seeded_paths w; apis := ∅ |}).
Proof.
  intros w0. subst w0. unfold storage_plugin_info_free.
  assert (Hi : storage_plugin_info (set_info None w) = None) by done.
  split; [done|]. split; [done|]. split; [done|]. split.
  - intros Hok. rewrite (get_info_create _ Hi Hok). world_fields.
    count_events. split; [done | lia].
  - intros Hok Hsync.
    rewrite (get_no_rescan name _ _ _ (get_info_create _ Hi Hok))
      by (apply lookup_empty || (right; exact Hsync)).
    world_fields. count_events. repeat split; eauto; lia.
Qed.

(** X11.  What [dlite_storage_plugin_get] answers for a name that is not
    registered when the digest of the search path is not the cached hash:
    after its one rescan it returns the descriptor of the last file in scan
    order that reports the name, and it fails, listing the search path,
    exactly when no file that can be loaded from a directory of the search
    path reports the name.  In particular a loadable file that reports the
    name in a directory of the search path makes the call succeed with a
    descriptor that reports that name. *)
Theorem get_outcome_after_rescan name w info w1 h :
  get_storage_plugin_info w = (Some info, w1) →
  plugin_get_api info name = None →
  pathshash (paths info) = Some h → h ≠ storage_plugin_path_hash w →
  let '(out, w') := dlite_storage_plugin_get name w in
  out =
    match last_named name (all_files (fs w) (paths info)) with
    | Some api => Returned (Some api)
    | None =>
        Exited 1 (not_found_message (use_build_root w) name (paths info))
    end ∧
  rescans (trace w') = S (rescans (trace w)) ∧
  storage_plugin_path_hash w' = h ∧
  (∀ d l f api,
     d ∈ paths info → fs w !! d = Some l → f ∈ l →
     lib_api f = Some api → plugin_name api = name →
     ∃ api', out = Returned (Some api') ∧ plugin_name api' = name).
Proof.
  intros Hg Hl Hh Hne. unfold plugin_get_api in Hl.
  pose proof (get_info_post _ _ _ Hg) as (_ & Hhash & Hfs & Hmode & Hn & _).
  rewrite <- Hhash in Hne.
  rewrite (get_rescan _ _ _ _ _ Hg Hl Hh Hne). cbv zeta.
  pose proof (plugin_load_all_lookup (fs w1) info name) as Hlook.
  rewrite Hl, Hfs in Hlook. rewrite Hfs.
  assert (Hfound : ∀ d l f api,
    d ∈ paths info → fs w !! d = Some l → f ∈ l →
    lib_api f = Some api → plugin_name api = name →
    ∃ api', last_named name (all_files (fs w) (paths info)) = Some api' ∧
            plugin_name api' = name).
  { intros d l f api Hd Hdl Hf Ha <-.
    assert (Hfile : f ∈ all_files (fs w) (paths info)).
    { unfold all_files. apply list_elem_of_bind. exists d. by rewrite Hdl. }
    destruct (last_named_elem _ _ _ Hfile Ha) as [api' Hlast].
    exists api'. split; [done | by eapply last_named_name]. }
  destruct (last_named name (all_files (fs w) (paths info))) as [api0|]
    eqn:Hlast; rewrite Hlook; unfold errx; world_fields; count_events;
    rewrite Hn, ?Hmode.
  - repeat split; try lia.
    intros d l f api Hd Hdl Hf Ha Hname.
    destruct (Hfound d l f api Hd Hdl Hf Ha Hname) as (api' & [= <-] & Hn').
    eauto.
  - repeat split; try lia.
    intros d l f api Hd Hdl Hf Ha Hname.
    by destruct (Hfound d l f api Hd Hdl Hf Ha Hname) as (api' & [=] & _).
Qed.


End InterfaceFacts.

(** ** Concrete runs of the interface *)

Lemma teardown_hook_registered_once_witness :
  storage_plugin_info fresh_world = None ∧
  atexits (trace (demo_run [OpPaths; OpGet "hdf5"; OpUnloadAll;
                            OpPathAppend "/more"; OpLoadAll] fresh_world)) =
    (atexits (trace fresh_world) +
     if storage_plugin_info
          (demo_run [OpPaths; OpGet "hdf5"; OpUnloadAll;
                     OpPathAppend "/more"; OpLoadAll] fresh_world)
     is Some _ then 1 else 0)%nat.
Proof.
  split; [reflexivity|].
  exact (teardown_hook_registered_once (sub := demo) _ fresh_world eq_refl).
Defined.

Lemma path_hash_written_only_by_get_witness :
  storage_plugin_path_hash (demo_step (OpGet "hdf5") fresh_world).2 ≠
    storage_plugin_path_hash fresh_world ∧
  (∃ name info',
     OpGet "hdf5" = OpGet name ∧
     rescans (trace (demo_step (OpGet "hdf5") fresh_world).2) =
       S (rescans (trace fresh_world)) ∧
     storage_plugin_info (demo_step (OpGet "hdf5") fresh_world).2 =
       Some info' ∧
     demo_hash (paths info') =
       Some (storage_plugin_path_hash
               (demo_step (OpGet "hdf5") fresh_world).2)) ∧
  storage_plugin_path_hash
    (demo_run [OpLoadAll; OpPathAppend "/more"; OpUnloadAll] fresh_world) =
    storage_plugin_path_hash fresh_world.
Proof.
  destruct (path_hash_written_only_by_get (sub := demo)
              (OpGet "hdf5") fresh_world) as [Hone Hprog].
  assert (Hd : storage_plugin_path_hash
                 (demo_step (OpGet "hdf5") fresh_world).2 ≠
               storage_plugin_path_hash fresh_world) by (by vm_compute).
  split; [exact Hd|]. split; [exact (Hone Hd)|].
  apply Hprog. repeat constructor; intros name; discriminate.
Defined.

Lemma rescans_only_by_get_and_load_all_witness :
  rescans (trace (demo_step OpLoadAll fresh_world).2) = 1%nat ∧
  rescans (trace (demo_step OpLoadAll no_memory_world).2) = 0%nat ∧
  rescans (trace (demo_run [OpPathAppend "/more"; OpUnload "hdf5";
                            OpUnloadAll; OpPaths; OpPathRemove "/more"]
                    loaded_world)) = rescans (trace loaded_world).
Proof.
  destruct (rescans_only_by_get_and_load_all (sub := demo)
              OpLoadAll fresh_world) as (_ & Hfresh & _).
  destruct (rescans_only_by_get_and_load_all (sub := demo)
              OpLoadAll no_memory_world) as (_ & Hnone & _).
  destruct (rescans_only_by_get_and_load_all (sub := demo)
              OpPaths loaded_world) as (_ & _ & _ & Hprog).
  split; [exact (Hfresh eq_refl)|]. split; [exact (Hnone eq_refl)|].
  apply Hprog. repeat constructor.
Defined.

Lemma search_path_changed_only_by_path_calls_witness :
  ∃ info,
    storage_plugin_info loaded_world = Some info ∧
    search_path (demo_step (OpGet "xml") loaded_world).2 =
      Some (paths info) ∧
    search_path (demo_run [OpUnload "hdf5"; OpLoadAll; OpPaths]
                   loaded_world) = Some (paths info).
Proof.
  eexists. split; [reflexivity|].
  destruct (search_path_changed_only_by_path_calls (sub := demo)
              (OpGet "xml") loaded_world _ eq_refl) as (Hone & Hprog).
  split; [by apply Hone | apply Hprog; repeat constructor].
Defined.

Lemma dlite_storage_plugin_unload_then_get_witness :
  ∃ info,
    storage_plugin_info loaded_world = Some info ∧
    demo_hash (paths info) = Some (storage_plugin_path_hash loaded_world) ∧
    let '(r, w1) := demo_unload "hdf5" loaded_world in
    r = 0 ∧
    let '(out, w2) := demo_get "hdf5" w1 in
    (∃ msg, out = Exited 1 msg) ∧ rescans (trace w2) = rescans (trace w1).
Proof.
  eexists. split; [reflexivity|]. split; [vm_compute; reflexivity|].
  pose proof (dlite_storage_plugin_unload_then_get (sub := demo)
                "hdf5" loaded_world _ eq_refl) as T.
  unfold demo_unload, demo_get.
  destruct (dlite_storage_plugin_unload "hdf5" loaded_world) as [r w1].
  destruct T as (Hr & _ & _ & _ & _ & Hget).
  split; [apply Hr; vm_compute; eauto|].
  assert (Hsync : pathshash (Substrate := demo) ["/plugins"] =
                  Some (storage_plugin_path_hash loaded_world))
    by (vm_compute; reflexivity).
  specialize (Hget Hsync).
  destruct (dlite_storage_plugin_get "hdf5" w1) as [out w2].
  destruct Hget as (Hout & Hn & _). by split.
Defined.

Lemma load_all_then_get_resolves_witness :
  ∃ info w1 l,
    demo_get_info fresh_world = (Some info, w1) ∧
    "/plugins" ∈ paths info ∧
    fs fresh_world !! "/plugins" = Some l ∧
    {| lib_file := "dlite-json.so"; lib_api := Some json_api |} ∈ l ∧
    let w2 := (demo_load_all fresh_world).2 in
    ∃ api',
      demo_get "json" w2 = (Returned (Some api'), log (EvGetApi "json") w2) ∧
      plugin_name api' = "json" ∧
      last_named "json" (all_files (fs fresh_world) (paths info)) = Some api'.
Proof.
  eexists _, _, _. split; [vm_compute; reflexivity|].
  split; [by left|]. split; [vm_compute; reflexivity|].
  split; [by do 2 right; left|].
  eapply (load_all_then_get_resolves (sub := demo) fresh_world _ _
            "/plugins" _ _ json_api);
    [vm_compute; reflexivity | by left | vm_compute; reflexivity
    | by do 2 right; left | reflexivity].
Defined.

Lemma failed_allocation_is_retried_witness :
  storage_plugin_info low_memory_world = None ∧
  mem low_memory_world = [false; true] ∧
  let '(r1, w1) := demo_path_append "/a" low_memory_world in
  let '(r2, w2) := demo_path_append "/b" w1 in
  r1 = 1 ∧ search_path w1 = None ∧
  r2 = Z.of_nat (length (seeded_paths (sub := demo) low_memory_world)) ∧
  search_path w2 =
    Some (seeded_paths (sub := demo) low_memory_world ++ ["/b"]) ∧
  atexits (trace w2) = S (atexits (trace low_memory_world)).
Proof.
  split; [reflexivity|]. split; [reflexivity|].
  exact (failed_allocation_is_retried (sub := demo)
           "/a" "/b" low_memory_world [] eq_refl eq_refl).
Defined.

Lemma storage_plugin_info_free_then_reuse_witness :
  next_alloc loaded_world = true ∧
  demo_hash (seeded_paths (sub := demo) loaded_world) =
    Some (storage_plugin_path_hash loaded_world) ∧
  is_Some (plugin_get_api
             (default {| paths := []; apis := ∅ |}
                (storage_plugin_info loaded_world)) "hdf5") ∧
  let '(out, w2) :=
    demo_get "hdf5" (storage_plugin_info_free loaded_world) in
  (∃ msg, out = Exited 1 msg) ∧
  rescans (trace w2) = rescans (trace loaded_world).
Proof.
  split; [reflexivity|]. split; [vm_compute; reflexivity|].
  split; [vm_compute; eauto|].
  destruct (storage_plugin_info_free_then_reuse (sub := demo)
              loaded_world "hdf5") as (_ & _ & _ & _ & Hget).
  assert (Hsync : pathshash (Substrate := demo)
                    (seeded_paths (sub := demo) loaded_world) =
                  Some (storage_plugin_path_hash loaded_world))
    by (vm_compute; reflexivity).
  specialize (Hget eq_refl Hsync). unfold demo_get.
  destruct (dlite_storage_plugin_get "hdf5"
              (storage_plugin_info_free loaded_world)) as [out w2].
  destruct Hget as (Hout & Hn & _). by split.
Defined.

Lemma get_outcome_after_rescan_witness :
  ∃ info w1 h,
    demo_get_info fresh_world = (Some info, w1) ∧
    plugin_get_api info "json" = None ∧
    demo_hash (paths info) = Some h ∧
    h ≠ storage_plugin_path_hash fresh_world ∧
    (demo_get "json" fresh_world).1 = Returned (Some json_api) ∧
    (∃ msg, (demo_get "xml" fresh_world).1 = Exited 1 msg).
Proof.
  eexists _, _, _. split; [vm_compute; reflexivity|].
  split; [reflexivity|]. split; [vm_compute; reflexivity|].
  split; [by vm_compute|].
  pose proof (get_outcome_after_rescan (sub := demo) "json" fresh_world
                _ _ _ eq_refl eq_refl eq_refl) as Tjson.
  pose proof (get_outcome_after_rescan (sub := demo) "xml" fresh_world
                _ _ _ eq_refl eq_refl eq_refl) as Txml.
  unfold demo_get.
  destruct (dlite_storage_plugin_get "json" fresh_world) as [o1 v1].
  destruct (dlite_storage_plugin_get "xml" fresh_world) as [o2 v2].
  destruct Tjson as (-> & _); [by vm_compute|].
  destruct Txml as (-> & _); [by vm_compute|].
  split; [reflexivity | eexists; reflexivity].
Defined.

